(** * GPOS pair-kerning compaction

    A shallow embedding of [gpos_compaction/compact_kern_feature_writer.py]
    and the properties of its regrouping strategies.

    The Python module drives two external libraries: fontTools decodes the
    font and builds the new subtables ([buildPairPosClassesSubtable]),
    scikit-learn clusters the rows ([AgglomerativeClustering.fit_predict]).
    Both are parameters of the development.  Everything else (the decoded
    table objects, Python's insertion-ordered [dict] and [defaultdict], the
    loops, the exceptions) is modelled as the module uses it. *)

From Stdlib Require Import PrimFloat SpecFloat FloatOps.
From Stdlib Require Import List ZArith String Ascii Bool Lia Permutation.
Import ListNotations.

Local Open Scope string_scope.
Local Open Scope Z_scope.
Local Open Scope list_scope.

Set Implicit Arguments.

(** ** Exceptions

    A Python call either returns a value or raises.  Only the exception
    classes this module can meet are listed; [LibraryError] stands for
    whatever an external library raises. *)

Inductive exn : Type :=
| ValueError (msg : string)
| UnboundLocalError (name : string)
| AttributeError (name : string)
| KeyError (key : string)
| IndexError
| ZeroDivisionError
| OverflowError
| TypeError
| LibraryError (msg : string).

Inductive result (A : Type) : Type :=
| Ok (a : A)
| Raise (e : exn).

Arguments Ok {A} a.
Arguments Raise {A} e.

Definition bind {A B : Type} (m : result A) (k : A -> result B) : result B :=
  match m with
  | Ok a => k a
  | Raise e => Raise e
  end.

Notation "x <- m ;; k" := (bind m (fun x => k))
  (at level 61, m at next level, right associativity).

(** [[f(x) for x in l]] where [f] may raise: the first exception stops the
    loop. *)
Fixpoint mapM {A B : Type} (f : A -> result B) (l : list A) : result (list B) :=
  match l with
  | [] => Ok []
  | x :: l' => y <- f x ;; ys <- mapM f l' ;; Ok (y :: ys)
  end.

(** ** Decidable equality of dictionary keys *)

Class EqDec (A : Type) := eq_dec : forall x y : A, {x = y} + {x <> y}.

#[export] Instance Z_EqDec : EqDec Z := Z.eq_dec.
#[export] Instance string_EqDec : EqDec string := string_dec.
#[export] Instance list_EqDec {A} `{EqDec A} : EqDec (list A) :=
  list_eq_dec eq_dec.
#[export] Instance prod_EqDec {A B} `{EqDec A} `{EqDec B} : EqDec (A * B).
Proof. intros [a b] [a' b']. unfold EqDec in *. decide equality. Defined.

(** ** Python dictionaries

    A [dict] keeps its items in insertion order and assigning to a key that
    is already there replaces the value in place.  [defaultdict] differs in
    one thing: reading a missing key inserts the default and returns it. *)

Definition dict (K V : Type) : Type := list (K * V).

Module Dict.
Section Dict.
Context {K V : Type} `{EqDec K}.

Definition keys (d : dict K V) : list K := map fst d.
Definition values (d : dict K V) : list V := map snd d.

(** [d.get(k)] *)
Fixpoint get (d : dict K V) (k : K) : option V :=
  match d with
  | [] => None
  | (k', v) :: d' => if eq_dec k k' then Some v else get d' k
  end.

(** [d.get(k, default)] *)
Definition get_or (d : dict K V) (k : K) (default : V) : V :=
  match get d k with
  | Some v => v
  | None => default
  end.

(** [k in d] *)
Definition mem (d : dict K V) (k : K) : bool :=
  match get d k with
  | Some _ => true
  | None => false
  end.

(** [d[k] = v] *)
Fixpoint set (d : dict K V) (k : K) (v : V) : dict K V :=
  match d with
  | [] => [(k, v)]
  | (k', v') :: d' =>
      if eq_dec k k' then (k', v) :: d' else (k', v') :: set d' k v
  end.

(** [d.update(other)] *)
Definition update (d other : dict K V) : dict K V :=
  fold_left (fun acc kv => set acc (fst kv) (snd kv)) other d.

(** [d.pop(k)], the dictionary that is left *)
Fixpoint remove (d : dict K V) (k : K) : dict K V :=
  match d with
  | [] => []
  | (k', v') :: d' =>
      if eq_dec k k' then d' else (k', v') :: remove d' k
  end.

(** [d.setdefault(k, v)] *)
Definition setdefault (d : dict K V) (k : K) (v : V) : dict K V :=
  if mem d k then d else set d k v.

(** [d[k]] on a [defaultdict]: the value read and the dictionary after
    the read. *)
Definition getitem_default (d : dict K V) (k : K) (default : V) : V * dict K V :=
  match get d k with
  | Some v => (v, d)
  | None => (default, set d k default)
  end.
End Dict.
End Dict.

(** [enumerate(l)] *)
Fixpoint enumerate_from {A : Type} (i : Z) (l : list A) : list (Z * A) :=
  match l with
  | [] => []
  | x :: l' => (i, x) :: enumerate_from (i + 1) l'
  end.

Definition enumerate {A : Type} (l : list A) : list (Z * A) :=
  enumerate_from 0 l.

(** Iterating over a Python [str] yields its characters, each a string of
    length one. *)
Fixpoint chars (s : string) : list string :=
  match s with
  | EmptyString => []
  | String c s' => String c EmptyString :: chars s'
  end.

(** ** Decoded font tables (fontTools [otTables]) *)

Definition Glyph : Type := string.
Definition GlyphTuple : Type := list Glyph.

Record Device : Type := {
  StartSize : Z;
  EndSize : Z;
  DeltaFormat : Z;
  DeltaValue : list Z
}.

(** A [ValueRecord] carries only the attributes its value format selects:
    an absent one is [None] here. *)
Record ValueRecord : Type := {
  XPlacement : option Z;
  YPlacement : option Z;
  XAdvance : option Z;
  YAdvance : option Z;
  XPlaDevice : option Device;
  YPlaDevice : option Device;
  XAdvDevice : option Device;
  YAdvDevice : option Device
}.

(** Python values that are read dynamically: attributes of a value record
    and the entries of [clustering_kwargs]. *)
Inductive pyval : Type :=
| PyNone
| PyInt (z : Z)
| PyFloat (x : float)
| PyStr (s : string)
| PyDevice (d : Device).

Definition attr_of {A : Type} (inj : A -> pyval) (field : option A) : option pyval :=
  option_map inj field.

(** The attributes of a value record by name.  [ValueRecord] has no other
    data attribute, and none whose name is a single letter. *)
Definition lookup_attr (value : ValueRecord) (attr : string) : option pyval :=
  if string_dec attr "XPlacement" then attr_of PyInt value.(XPlacement)
  else if string_dec attr "YPlacement" then attr_of PyInt value.(YPlacement)
  else if string_dec attr "XAdvance" then attr_of PyInt value.(XAdvance)
  else if string_dec attr "YAdvance" then attr_of PyInt value.(YAdvance)
  else if string_dec attr "XPlaDevice" then attr_of PyDevice value.(XPlaDevice)
  else if string_dec attr "YPlaDevice" then attr_of PyDevice value.(YPlaDevice)
  else if string_dec attr "XAdvDevice" then attr_of PyDevice value.(XAdvDevice)
  else if string_dec attr "YAdvDevice" then attr_of PyDevice value.(YAdvDevice)
  else None.

(** [getattr(value, attr, default)] *)
Definition getattr (value : ValueRecord) (attr : string) (default : pyval) : pyval :=
  match lookup_attr value attr with
  | Some v => v
  | None => default
  end.

(** [v == 0] *)
Definition py_eq_zero (v : pyval) : bool :=
  match v with
  | PyInt z => z =? 0
  | PyFloat x => PrimFloat.eqb x 0
  | _ => false
  end.

(** [v is None] *)
Definition py_is_None (v : pyval) : bool :=
  match v with
  | PyNone => true
  | _ => false
  end.

Record Class2RecordT : Type := {
  Value1 : option ValueRecord;
  Value2 : option ValueRecord
}.

Record Class1RecordT : Type := {
  Class2Record : list Class2RecordT
}.

Record PairValueRecordT : Type := {
  SecondGlyph : Glyph;
  PairValue1 : option ValueRecord;
  PairValue2 : option ValueRecord
}.

Record PairSetT : Type := {
  PairValueRecord : list PairValueRecordT
}.

Record CoverageT : Type := { glyphs : list Glyph }.
Record ClassDefT : Type := { classDefs : dict Glyph Z }.

(** A pair-adjustment subtable.  [Format] says which of the fields are
    meaningful: [PairSet] for format 1, the class definitions and
    [Class1Record] for format 2. *)
Record PairPos : Type := {
  Format : Z;
  Coverage : CoverageT;
  PairSet : list PairSetT;
  ClassDef1 : ClassDefT;
  ClassDef2 : ClassDefT;
  Class1Record : list Class1RecordT
}.

(** ** The zero-value filter: [is_really_zero]

    The second generator iterates over ONE string: the four literals stand
    next to each other without commas, so Python concatenates them, and the
    loop variable runs over the characters of the result. *)

Definition is_really_zero (value : option ValueRecord) : bool :=
  match value with
  | None => true
  | Some value =>
      forallb (fun attr => py_eq_zero (getattr value attr (PyInt 0)))
        ["XPlacement"; "YPlacement"; "XAdvance"; "YAdvance"]
      &&
      forallb (fun attr => py_is_None (getattr value attr PyNone))
        (chars ("XPlaDevice" ++ "YPlaDevice" ++ "XAdvDevice" ++ "YAdvDevice")%string)
  end.

(** ** The pair matrix *)

Definition PairKey : Type := GlyphTuple * GlyphTuple.
Definition ValuePair : Type := option ValueRecord * option ValueRecord.
Definition Pairs : Type := dict PairKey ValuePair.

(** ** Lookups and the font

    A lookup holds subtables of the kind its [LookupType] announces.  The
    module reads them dynamically, so one type covers the kinds it can meet:
    a pair-adjustment subtable, an extension wrapper, anything else.  A
    wrapper made by [otTables.ExtensionPos()] has no [ExtensionLookupType]
    until the font is compiled. *)

Inductive SubTableT : Type :=
| PairPosT (p : PairPos)
| ExtensionPosT (ExtFormat : Z) (ExtensionLookupType : option Z)
                (ExtSubTable : SubTableT)
| OtherT (OtherFormat : Z).

(** [subtable.Format] *)
Definition Format_of (subtable : SubTableT) : Z :=
  match subtable with
  | PairPosT p => p.(Format)
  | ExtensionPosT f _ _ => f
  | OtherT f => f
  end.

(** [ext_subtable.ExtSubTable] *)
Definition ExtSubTable_of (ext_subtable : SubTableT) : result SubTableT :=
  match ext_subtable with
  | ExtensionPosT _ _ s => Ok s
  | _ => Raise (AttributeError "ExtSubTable")
  end.

(** [subtable.ExtensionLookupType] *)
Definition ExtensionLookupType_of (subtable : SubTableT) : result Z :=
  match subtable with
  | ExtensionPosT _ (Some t) _ => Ok t
  | _ => Raise (AttributeError "ExtensionLookupType")
  end.

(** The attributes [compact_class_pairs] reads exist on a [PairPos] only. *)
Definition as_PairPos (subtable : SubTableT) : result PairPos :=
  match subtable with
  | PairPosT p => Ok p
  | _ => Raise (AttributeError "Coverage")
  end.

Record Lookup : Type := {
  LookupType : Z;
  SubTable : list SubTableT;
  SubTableCount : Z
}.

Definition GlyphMap : Type := dict Glyph Z.

(** [GPOS] is [ttf["GPOS"].table.LookupList.Lookup], absent when the font
    has no such table. *)
Record TTFont : Type := {
  GPOS : option (list Lookup);
  getReverseGlyphMap : GlyphMap
}.

Definition Kwargs : Type := dict string pyval.

Record Config : Type := {
  mode : string;
  clustering_kwargs : Kwargs
}.

Definition len {A : Type} (l : list A) : Z := Z.of_nat (List.length l).

(** ** Pair extraction (the first half of [compact_class_pairs])

    [classes1] and [classes2] are [defaultdict(list)]: the reads
    [classes1[i]] and [classes2[j]] of the matrix loop insert the classes
    that have no glyph, and [len(classes1)] is read afterwards. *)

Record Extracted : Type := {
  classes1 : dict Z (list Glyph);
  classes2 : dict Z (list Glyph);
  all_pairs : Pairs
}.

(** [classes[i].append(g)] *)
Definition append_to_class (classes : dict Z (list Glyph)) (i : Z) (g : Glyph)
  : dict Z (list Glyph) :=
  let '(l, classes') := Dict.getitem_default classes i [] in
  Dict.set classes' i (l ++ [g]).

Definition build_classes1 (subtable : PairPos) : dict Z (list Glyph) :=
  fold_left
    (fun classes1 g =>
       append_to_class classes1
         (Dict.get_or subtable.(ClassDef1).(classDefs) g 0) g)
    subtable.(Coverage).(glyphs) [].

Definition build_classes2 (subtable : PairPos) : dict Z (list Glyph) :=
  fold_left
    (fun classes2 gi => append_to_class classes2 (snd gi) (fst gi))
    subtable.(ClassDef2).(classDefs) [].

(** The body of the inner loop for cell [(i, j)]. *)
Definition extract_cell (i : Z) (st : Extracted) (jc : Z * Class2RecordT)
  : Extracted :=
  let '(j, class2) := jc in
  if is_really_zero class2.(Value1) && is_really_zero class2.(Value2) then st
  else
    let '(c1, classes1') := Dict.getitem_default st.(classes1) i [] in
    let '(c2, classes2') := Dict.getitem_default st.(classes2) j [] in
    {| classes1 := classes1';
       classes2 := classes2';
       all_pairs :=
         Dict.set st.(all_pairs) (c1, c2) (class2.(Value1), class2.(Value2)) |}.

Definition extract_row (st : Extracted) (ic : Z * Class1RecordT) : Extracted :=
  let '(i, class1) := ic in
  fold_left (extract_cell i) (enumerate class1.(Class2Record)) st.

Definition extract_pairs (subtable : PairPos) : Extracted :=
  fold_left extract_row (enumerate subtable.(Class1Record))
    {| classes1 := build_classes1 subtable;
       classes2 := build_classes2 subtable;
       all_pairs := [] |}.

(** ** Matrix lines

    [groups[pair[0]][pair] = values] over [all_pairs.items()]: the loop of
    the "max" branch, written a second time (as [lines]) in
    [cluster_pairs_by_class2_coverage].  Both are [defaultdict(dict)]. *)

Definition add_to_line (lines : dict GlyphTuple Pairs)
    (item : PairKey * ValuePair) : dict GlyphTuple Pairs :=
  let '(pr, values) := item in
  let '(line, lines') := Dict.getitem_default lines (fst pr) [] in
  Dict.set lines' (fst pr) (Dict.set line pr values).

Definition group_by_class1 (pairs : Pairs) : dict GlyphTuple Pairs :=
  fold_left add_to_line pairs [].

(** ** Row clustering: [cluster_pairs_by_class2_coverage] *)

(** A Python [float] is an IEEE 754 double, the kernel's [float].

    [float(n)], which [n / y] applies to an [int] on the left of a float:
    the nearest double, ties to even, and [OverflowError] beyond the
    largest one. *)
Definition float_of_int (n : Z) : result float :=
  let x := SF2Prim (binary_normalize prec emax n 0 false) in
  if PrimFloat.is_infinity x then Raise OverflowError else Ok x.

(** [int(x)] for a float: its integer part, toward zero. *)
Definition int_of_float (x : float) : result Z :=
  match Prim2SF x with
  | S754_zero _ => Ok 0
  | S754_finite s m e =>
      let a := Z.shiftl (Z.pos m) e in
      Ok (if s then - a else a)
  | S754_infinity _ => Raise OverflowError
  | S754_nan => Raise (ValueError "cannot convert float NaN to integer")
  end.

(** [int(n / v)] for the integer [n = len(lines)]: true division, then
    truncation toward zero.  With a float [v] the division is the one of
    doubles.  With an [int] the quotient is the double nearest to the exact
    one; its integer part is the truncated exact quotient for the lengths
    a [dict] can have, which are far below 2^53. *)
Definition int_of_quotient (n : Z) (v : pyval) : result Z :=
  match v with
  | PyInt k =>
      if Z.eqb k 0 then Raise ZeroDivisionError else Ok (Z.quot n k)
  | PyFloat y =>
      x <- float_of_int n ;;
      if PrimFloat.eqb y 0 then Raise ZeroDivisionError
      else int_of_float (PrimFloat.div x y)
  | _ => Raise TypeError
  end.

(** The keyword arguments handed to [AgglomerativeClustering]. *)
Definition clustering_arguments (num_lines : Z) (clustering_kwargs : Kwargs)
  : result Kwargs :=
  let kwargs := clustering_kwargs in
  if Dict.mem kwargs "lines_per_cluster" then
    let lines_per_cluster := Dict.get_or kwargs "lines_per_cluster" PyNone in
    let kwargs := Dict.remove kwargs "lines_per_cluster" in
    q <- int_of_quotient num_lines lines_per_cluster ;;
    let kwargs :=
      Dict.set kwargs "n_clusters" (PyInt (Z.min (Z.max q 1) num_lines)) in
    Ok (Dict.set kwargs "distance_threshold" PyNone)
  else
    let kwargs := Dict.setdefault kwargs "n_clusters" PyNone in
    let kwargs := Dict.setdefault kwargs "linkage" (PyStr "ward") in
    Ok (Dict.setdefault kwargs "distance_threshold" (PyFloat 5.5)).

(** The body of the loop over [zip(all_class1, labels)].  [lines] is a
    [defaultdict], read here for keys it has. *)
Definition assign_line (lines : dict GlyphTuple Pairs)
    (st : dict Z Pairs * list Pairs) (cl : GlyphTuple * Z)
  : dict Z Pairs * list Pairs :=
  let '(grouped_lines, ungrouped_lines) := st in
  let '(class1, label) := cl in
  if Z.eqb label (-1) then
    (grouped_lines, ungrouped_lines ++ [Dict.get_or lines class1 []])
  else
    let '(group, grouped_lines') :=
      Dict.getitem_default grouped_lines label [] in
    (Dict.set grouped_lines' label
       (Dict.update group (Dict.get_or lines class1 [])),
     ungrouped_lines).

Section Compaction.

(** [cluster.AgglomerativeClustering] built from the keyword arguments,
    then its [fit_predict(vectors)]: one label per vector, or an
    exception. *)
Variable fit_predict : Kwargs -> list (list Z) -> result (list Z).

(** [list(set(...))]: the order in which a set of glyph tuples is
    iterated. *)
Variable list_of_set : list GlyphTuple -> list GlyphTuple.

Definition cluster_pairs_by_class2_coverage
    (pairs : Pairs) (clustering_kwargs : Kwargs) : result (list Pairs) :=
  let all_class1 := list_of_set (map (fun pr => fst pr) (Dict.keys pairs)) in
  let all_class2 := list_of_set (map (fun pr => snd pr) (Dict.keys pairs)) in
  let vectors :=
    map (fun class1 =>
           map (fun class2 =>
                  if Dict.mem pairs (class1, class2) then 1 else 0)
               all_class2)
        all_class1 in
  let lines := group_by_class1 pairs in
  kwargs <- clustering_arguments (len lines) clustering_kwargs ;;
  labels <- fit_predict kwargs vectors ;;
  let '(grouped_lines, ungrouped_lines) :=
    fold_left (assign_line lines) (combine all_class1 labels) ([], []) in
  Ok (Dict.values grouped_lines ++ ungrouped_lines).

(** ** Regrouping: [compact_class_pairs]

    [B] is what the builder returns: a [PairPos] in the lookup adapter;
    taking the pair matrix itself shows the groups the builder is given. *)

Variable B : Type.
Variable buildPairPosClassesSubtable : Pairs -> GlyphMap -> result B.

Definition compact_class_pairs (ttf : TTFont) (config : Config)
    (lookup : Lookup) (subtable : PairPos) : result (list B) :=
  let ex := extract_pairs subtable in
  let classes1 := ex.(classes1) in
  let all_pairs := ex.(all_pairs) in
  if string_dec config.(mode) "one" then
    s <- buildPairPosClassesSubtable all_pairs ttf.(getReverseGlyphMap) ;;
    Ok [s]
  else if string_dec config.(mode) "max" then
    let groups := group_by_class1 all_pairs in
    mapM (fun pairs =>
            buildPairPosClassesSubtable pairs ttf.(getReverseGlyphMap))
         (Dict.values groups)
  else if string_dec config.(mode) "auto" then
    if len classes1 <? 2 then
      s <- buildPairPosClassesSubtable all_pairs ttf.(getReverseGlyphMap) ;;
      Ok [s]
    else
      grouped_pairs <-
        cluster_pairs_by_class2_coverage all_pairs
          config.(clustering_kwargs) ;;
      mapM (fun pairs =>
              buildPairPosClassesSubtable pairs ttf.(getReverseGlyphMap))
           grouped_pairs
  else Raise (ValueError "Bad config").

End Compaction.

(** The groups of a subtable: what [compact_class_pairs] passes to the
    builder, call by call. *)
Definition subtable_groups fit_predict list_of_set
    (ttf : TTFont) (config : Config) (lookup : Lookup) (subtable : PairPos)
  : result (list Pairs) :=
  compact_class_pairs fit_predict list_of_set
    (fun pairs _ => Ok pairs) ttf config lookup subtable.

(** ** The lookup adapter *)

(** A [for] loop whose body may raise. *)
Fixpoint foldM {S A : Type} (f : S -> A -> result S) (l : list A) (s : S)
  : result S :=
  match l with
  | [] => Ok s
  | x :: l' => s' <- f s x ;; foldM f l' s'
  end.

Section Adapter.

Variable fit_predict : Kwargs -> list (list Z) -> result (list Z).
Variable list_of_set : list GlyphTuple -> list GlyphTuple.
Variable buildPairPosClassesSubtable : Pairs -> GlyphMap -> result PairPos.

Definition compact_glyph_pairs (ttf : TTFont) (config : Config)
    (lookup : Lookup) (subtable : SubTableT) : list SubTableT :=
  [subtable].

(** [compact_class_pairs] on a subtable of the lookup; what it returns
    are [PairPos] objects. *)
Definition compact_class_subtable (ttf : TTFont) (config : Config)
    (lookup : Lookup) (subtable : SubTableT) : result (list SubTableT) :=
  p <- as_PairPos subtable ;;
  built <- compact_class_pairs fit_predict list_of_set
             buildPairPosClassesSubtable ttf config lookup p ;;
  Ok (map PairPosT built).

(** One turn of the loop of [compact_lookup]. *)
Definition compact_lookup_step (ttf : TTFont) (config : Config)
    (lookup : Lookup) (new_subtables : list SubTableT)
    (subtable : SubTableT) : result (list SubTableT) :=
  if Format_of subtable =? 1 then
    Ok (new_subtables ++ compact_glyph_pairs ttf config lookup subtable)
  else if Format_of subtable =? 2 then
    l <- compact_class_subtable ttf config lookup subtable ;;
    Ok (new_subtables ++ l)
  else Ok new_subtables.

(** The loop of [compact_lookup], from an empty [new_subtables]. *)
Definition compact_subtables (ttf : TTFont) (config : Config)
    (lookup : Lookup) (subtables : list SubTableT)
  : result (list SubTableT) :=
  foldM (compact_lookup_step ttf config lookup) subtables [].

(** The lookup after the call, or the exception; the two assignments to
    the lookup come after the loop, so an exception leaves it as it was. *)
Definition compact_lookup (ttf : TTFont) (config : Config) (lookup : Lookup)
  : result Lookup :=
  new_subtables <- compact_subtables ttf config lookup lookup.(SubTable) ;;
  Ok {| LookupType := lookup.(LookupType);
        SubTable := new_subtables;
        SubTableCount := len new_subtables |}.

(** One turn of the loop of [compact_ext_lookup].  The local
    [new_subtables] is assigned in the two branches only: it is unbound
    ([None]) until one of them has run, and keeps its value from one turn
    to the next. *)
Definition compact_ext_lookup_step (ttf : TTFont) (config : Config)
    (lookup : Lookup)
    (st : list SubTableT * option (list SubTableT))
    (ext_subtable : SubTableT)
  : result (list SubTableT * option (list SubTableT)) :=
  let '(new_ext_subtables, new_subtables) := st in
  subtable <- ExtSubTable_of ext_subtable ;;
  new_subtables <-
    (if Format_of subtable =? 1 then
       Ok (Some (compact_glyph_pairs ttf config lookup subtable))
     else if Format_of subtable =? 2 then
       l <- compact_class_subtable ttf config lookup subtable ;;
       Ok (Some l)
     else Ok new_subtables) ;;
  match new_subtables with
  | None => Raise (UnboundLocalError "new_subtables")
  | Some l =>
      Ok (new_ext_subtables
            ++ map (fun subtable => ExtensionPosT 1 None subtable) l,
          Some l)
  end.

Definition compact_ext_lookup (ttf : TTFont) (config : Config)
    (lookup : Lookup) : result Lookup :=
  st <- foldM (compact_ext_lookup_step ttf config lookup)
          lookup.(SubTable) ([], None) ;;
  let new_ext_subtables := fst st in
  Ok {| LookupType := lookup.(LookupType);
        SubTable := new_ext_subtables;
        SubTableCount := len new_ext_subtables |}.

(** The body of the loop of [compact]. *)
Definition compact_dispatch (ttf : TTFont) (config : Config) (lookup : Lookup)
  : result Lookup :=
  if lookup.(LookupType) =? 2 then compact_lookup ttf config lookup
  else if lookup.(LookupType) =? 9 then
    t <- match lookup.(SubTable) with
         | [] => Raise IndexError
         | first :: _ => ExtensionLookupType_of first
         end ;;
    if t =? 2 then compact_ext_lookup ttf config lookup else Ok lookup
  else Ok lookup.

(** The lookups are changed in place, one after the other: when one
    raises, those before it have been rewritten, it and those after it
    have not.  The result is the list as the call leaves it and the
    exception, if any. *)
Fixpoint compact_lookups (ttf : TTFont) (config : Config)
    (lookups : list Lookup) : list Lookup * option exn :=
  match lookups with
  | [] => ([], None)
  | lookup :: rest =>
      match compact_dispatch ttf config lookup with
      | Ok lookup' =>
          let '(rest', e) := compact_lookups ttf config rest in
          (lookup' :: rest', e)
      | Raise e => (lookup :: rest, Some e)
      end
  end.

Definition compact (ttf : TTFont) (mode : string)
    (clustering_kwargs : Kwargs) : TTFont * option exn :=
  let config := {| mode := mode; clustering_kwargs := clustering_kwargs |} in
  match ttf.(GPOS) with
  | None => (ttf, Some (KeyError "GPOS"))
  | Some lookups =>
      let '(lookups', e) := compact_lookups ttf config lookups in
      ({| GPOS := Some lookups';
          getReverseGlyphMap := ttf.(getReverseGlyphMap) |}, e)
  end.

End Adapter.

(** * Vocabulary of the properties *)

Definition class1_of (item : PairKey * ValuePair) : GlyphTuple := fst (fst item).

(** The distinct class1 keys of a matrix. *)
Definition distinct_class1 (pairs : Pairs) : list GlyphTuple :=
  nodup eq_dec (map class1_of pairs).

(** The groups of a matrix are a rearrangement of its items: each item is in
    one group, once, and the groups hold nothing else. *)
Definition regroups (groups : list Pairs) (pairs : Pairs) : Prop :=
  Permutation (List.concat groups) pairs.

Definition mode_config (m : string) (kwargs : Kwargs) : Config :=
  {| mode := m; clustering_kwargs := kwargs |}.

(** [compact] comes to the class-based subtable [p] of [lookup]: [lookup]
    is a pair-adjustment lookup and the loop of [compact_lookup] went
    through the subtables before [p] without an exception; or [lookup] is
    an extension lookup that [compact] takes for one of pair adjustments
    (by its first subtable), and the loop of [compact_ext_lookup] went
    through the subtables before the wrapper of [p] without an
    exception. *)
Definition comes_to_class_subtable fit_predict list_of_set build
    (ttf : TTFont) (config : Config) (lookup : Lookup) (p : PairPos) : Prop :=
  p.(Format) = 2
  /\ exists done rest,
       (lookup.(LookupType) = 2
        /\ lookup.(SubTable) = done ++ PairPosT p :: rest
        /\ exists new_subtables,
             compact_subtables fit_predict list_of_set build ttf config
               lookup done = Ok new_subtables)
       \/ (lookup.(LookupType) = 9
           /\ (exists first others,
                 lookup.(SubTable) = first :: others
                 /\ ExtensionLookupType_of first = Ok 2)
           /\ (exists f t,
                 lookup.(SubTable)
                 = done ++ ExtensionPosT f t (PairPosT p) :: rest)
           /\ exists st,
                foldM (compact_ext_lookup_step fit_predict list_of_set build
                         ttf config lookup) done ([], None) = Ok st).

Definition known_modes : list string := ["one"; "max"; "auto"].

(** ** What is assumed of the two library calls

    A set is iterated in some order, each element once; a clustering that
    returns gives one label per row. *)

Definition enumerates_set (list_of_set : list GlyphTuple -> list GlyphTuple)
  : Prop :=
  forall l, NoDup (list_of_set l) /\ forall x, In x (list_of_set l) <-> In x l.

Definition one_label_per_vector
    (fit_predict : Kwargs -> list (list Z) -> result (list Z)) : Prop :=
  forall kwargs vectors labels,
    fit_predict kwargs vectors = Ok labels ->
    List.length labels = List.length vectors.

(** ** The zero value and the cluster count, as the specification words them *)

Definition scalar_zero (field : option Z) : bool :=
  match field with
  | None => true
  | Some z => Z.eqb z 0
  end.

Definition no_device (field : option Device) : bool :=
  match field with
  | None => true
  | Some _ => false
  end.

(** "all present scalar fields equal zero", fields not present counting as
    zero. *)
Definition scalars_zero (value : ValueRecord) : bool :=
  scalar_zero value.(XPlacement) && scalar_zero value.(YPlacement)
  && scalar_zero value.(XAdvance) && scalar_zero value.(YAdvance).

(** "no device/variation table is attached to any of the four scalar
    fields" *)
Definition no_devices (value : ValueRecord) : bool :=
  no_device value.(XPlaDevice) && no_device value.(YPlaDevice)
  && no_device value.(XAdvDevice) && no_device value.(YAdvDevice).

Definition spec_semantically_zero (value : option ValueRecord) : bool :=
  match value with
  | None => true
  | Some value => scalars_zero value && no_devices value
  end.



(** [kwargs["n_clusters"]] as [cluster_pairs_by_class2_coverage] sets it for
    [num_lines] lines. *)
Definition n_clusters_passed (num_lines : Z) (clustering_kwargs : Kwargs)
  : result (option pyval) :=
  kwargs <- clustering_arguments num_lines clustering_kwargs ;;
  Ok (Dict.get kwargs "n_clusters").


(** ** Stand-ins for the libraries, to run the code on examples *)

(** A set iterated in the order of the last occurrences. *)
Definition dedup (l : list GlyphTuple) : list GlyphTuple := nodup eq_dec l.

(** A clustering that puts every row in cluster 0. *)
Definition single_cluster (kwargs : Kwargs) (vectors : list (list Z))
  : result (list Z) :=
  Ok (map (fun _ => 0) vectors).

(** A clustering that refuses fewer than two rows, as scikit-learn does. *)
Definition two_rows_needed (kwargs : Kwargs) (vectors : list (list Z))
  : result (list Z) :=
  if len vectors <? 2 then Raise (ValueError "minimum of 2 samples required")
  else Ok (map (fun _ => 0) vectors).

Definition zero_cell : Class2RecordT := {| Value1 := None; Value2 := None |}.

(** A builder that numbers the classes in the order it meets them. *)
Definition example_builder (pairs : Pairs) (glyphMap : GlyphMap)
  : result PairPos :=
  let rows := dedup (map class1_of pairs) in
  let cols := dedup (map (fun item => snd (fst item)) pairs) in
  Ok {| Format := 2;
        Coverage := {| glyphs := List.concat rows |};
        PairSet := [];
        ClassDef1 :=
          {| classDefs :=
               flat_map (fun ir => map (fun g => (g, fst ir)) (snd ir))
                        (enumerate rows) |};
        ClassDef2 :=
          {| classDefs :=
               flat_map (fun jc => map (fun g => (g, fst jc + 1)) (snd jc))
                        (enumerate cols) |};
        Class1Record :=
          map (fun r =>
                 {| Class2Record :=
                      zero_cell
                      :: map (fun c =>
                                match Dict.get pairs (r, c) with
                                | Some (v1, v2) =>
                                    {| Value1 := v1; Value2 := v2 |}
                                | None => zero_cell
                                end)
                             cols |})
              rows |}.

(** ** Example inputs *)

Definition advance (x : Z) : ValueRecord :=
  {| XPlacement := None; YPlacement := None;
     XAdvance := Some x; YAdvance := None;
     XPlaDevice := None; YPlaDevice := None;
     XAdvDevice := None; YAdvDevice := None |}.

Definition kern (x : Z) : Class2RecordT :=
  {| Value1 := Some (advance x); Value2 := None |}.

Definition some_device : Device :=
  {| StartSize := 11; EndSize := 12; DeltaFormat := 1; DeltaValue := [1; 1] |}.

(** Zero advance, with a device table attached to it. *)
Definition device_only : ValueRecord :=
  {| XPlacement := None; YPlacement := None;
     XAdvance := Some 0; YAdvance := None;
     XPlaDevice := None; YPlaDevice := None;
     XAdvDevice := Some some_device; YAdvDevice := None |}.

Definition class_subtable (coverage : list Glyph) (classDef1 classDef2 : dict Glyph Z)
    (matrix : list (list Class2RecordT)) : PairPos :=
  {| Format := 2;
     Coverage := {| glyphs := coverage |};
     PairSet := [];
     ClassDef1 := {| classDefs := classDef1 |};
     ClassDef2 := {| classDefs := classDef2 |};
     Class1Record := map (fun row => {| Class2Record := row |}) matrix |}.

(** The example of the specification: class1 keys A = (a, b) and B = (c),
    class2 keys X = (x) and Y = (y), entries (A, X), (A, Y) and (B, X). *)
Definition spec_example_subtable : PairPos :=
  class_subtable ["a"; "b"; "c"] [("c", 1)] [("x", 1); ("y", 2)]
    [ [zero_cell; kern 10; kern 20];
      [zero_cell; kern 30; kern 0] ].

(** One cell, whose first value is [device_only]. *)
Definition device_subtable : PairPos :=
  class_subtable ["a"] [] [("x", 1)]
    [ [zero_cell; {| Value1 := Some device_only; Value2 := None |}] ].

(** Two class1 classes, of which only the first has a kerning value. *)
Definition sparse_subtable : PairPos :=
  class_subtable ["a"; "b"] [("b", 1)] [("x", 1)]
    [ [zero_cell; kern 10];
      [zero_cell; kern 0] ].

(** A subtable whose values are all zero. *)
Definition zero_subtable : PairPos :=
  class_subtable ["a"] [] [("x", 1)] [ [zero_cell; kern 0] ].

(** A glyph-pair subtable: a followed by x. *)
Definition glyph_pair_subtable : PairPos :=
  {| Format := 1;
     Coverage := {| glyphs := ["a"] |};
     PairSet :=
       [ {| PairValueRecord :=
              [ {| SecondGlyph := "x";
                   PairValue1 := Some (advance 10);
                   PairValue2 := None |} ] |} ];
     ClassDef1 := {| classDefs := [] |};
     ClassDef2 := {| classDefs := [] |};
     Class1Record := [] |}.

(** A subtable whose format is neither 1 nor 2. *)
Definition format3_subtable : PairPos :=
  {| Format := 3;
     Coverage := {| glyphs := [] |};
     PairSet := [];
     ClassDef1 := {| classDefs := [] |};
     ClassDef2 := {| classDefs := [] |};
     Class1Record := [] |}.

(** The groups of the example under "max". *)
Definition spec_example_groups : list Pairs :=
  [ [ (["a"; "b"], ["x"], (Some (advance 10), None));
      (["a"; "b"], ["y"], (Some (advance 20), None)) ];
    [ (["c"], ["x"], (Some (advance 30), None)) ] ].

Definition pair_lookup (subtables : list PairPos) : Lookup :=
  {| LookupType := 2;
     SubTable := map PairPosT subtables;
     SubTableCount := len subtables |}.

Definition extension_lookup (subtables : list PairPos) : Lookup :=
  {| LookupType := 9;
     SubTable := map (fun p => ExtensionPosT 1 (Some 2) (PairPosT p)) subtables;
     SubTableCount := len subtables |}.

Definition font_of (lookups : list Lookup) : TTFont :=
  {| GPOS := Some lookups;
     getReverseGlyphMap :=
       [(".notdef", 0); ("a", 1); ("b", 2); ("c", 3); ("x", 4); ("y", 5)] |}.

(** ** Invariants of the loops *)

Unset Implicit Arguments.

(** What holds of [lines] when the items [done] have been put in. *)
Record lines_inv (lines : dict GlyphTuple Pairs) (done : Pairs) : Prop := {
  li_nodup : NoDup (Dict.keys lines);
  li_perm : Permutation (List.concat (Dict.values lines)) done;
  li_rows : forall r g, In (r, g) lines ->
            g <> [] /\ forall item, In item g -> class1_of item = r
}.

(** [lines[class1]] *)
Definition line_of (lines : dict GlyphTuple Pairs) (class1 : GlyphTuple) : Pairs :=
  Dict.get_or lines class1 [].

(** The items that the loop over the labels has put in a group so far. *)
Definition placed (st : dict Z Pairs * list Pairs) : Pairs :=
  List.concat (Dict.values (fst st)) ++ List.concat (snd st).

(** The keyword arguments of a call without [clustering_kwargs]. *)
Definition default_arguments : Kwargs :=
  [("n_clusters", PyNone); ("linkage", PyStr "ward");
   ("distance_threshold", PyFloat 5.5)].

(** ** Vocabulary of the further properties *)

(** The test of the matrix loop: both values of the cell pass
    [is_really_zero]. *)
Definition cell_is_zero (cell : Class2RecordT) : bool :=
  is_really_zero cell.(Value1) && is_really_zero cell.(Value2).

(** The cells of the value matrix, row after row. *)
Definition all_cells (subtable : PairPos) : list Class2RecordT :=
  flat_map Class2Record subtable.(Class1Record).

(** [subtable.ClassDef1.classDefs.get(g, 0)] *)
Definition class1_id (subtable : PairPos) (g : Glyph) : Z :=
  Dict.get_or subtable.(ClassDef1).(classDefs) g 0.

(** [a == b] on dictionary keys. *)
Definition same {K : Type} `{EqDec K} (a b : K) : bool :=
  if eq_dec a b then true else false.

(** The elements of a list in the order of their first occurrences. *)
Fixpoint first_occurrences {A : Type} `{EqDec A} (l : list A) : list A :=
  match l with
  | [] => []
  | x :: l' => x :: filter (fun y => negb (same y x)) (first_occurrences l')
  end.

(** Grouping by key, written without a loop: the keys in the order of
    their first occurrences, each with the elements of its items in the
    order of the items. *)
Definition grouped {A K E : Type} `{EqDec K} (key : A -> K) (elt : A -> E)
    (xs : list A) : dict K (list E) :=
  map (fun r => (r, map elt (filter (fun x => same (key x) r) xs)))
      (first_occurrences (map key xs)).

(** The covered glyphs of class1 [i], in the order of the coverage. *)
Definition class1_glyphs (subtable : PairPos) (i : Z) : list Glyph :=
  filter (fun g => same (class1_id subtable g) i)
         subtable.(Coverage).(glyphs).

(** The glyphs that [ClassDef2] puts in class [j], in its order. *)
Definition class2_glyphs (subtable : PairPos) (j : Z) : list Glyph :=
  map fst (filter (fun gi => same (snd gi) j)
                  subtable.(ClassDef2).(classDefs)).

(** The cells of the value matrix with their row and column numbers, in
    the order of the two loops. *)
Definition indexed_cells (subtable : PairPos) : list (Z * Z * Class2RecordT) :=
  flat_map (fun ir =>
              map (fun jc => (fst ir, fst jc, snd jc))
                  (enumerate (snd ir).(Class2Record)))
           (enumerate subtable.(Class1Record)).

(** The key that the matrix loop gives to cell [(i, j)]. *)
Definition cell_key (subtable : PairPos) (i j : Z) : PairKey :=
  (class1_glyphs subtable i, class2_glyphs subtable j).

(** The matrix loop without the class dictionaries: a cell that is not
    zero is stored under the glyph lists of its row and column classes. *)
Definition store_cell (subtable : PairPos) (pairs : Pairs)
    (ijc : Z * Z * Class2RecordT) : Pairs :=
  let '(i, j, cell) := ijc in
  if cell_is_zero cell then pairs
  else Dict.set pairs (cell_key subtable i j)
         (cell.(Value1), cell.(Value2)).

(** What holds of a class dictionary during the matrix loop: a list that
    is stored is the list of [grouped], every key of [grouped] is there. *)
Definition classes_ok {A : Type} (key : A -> Z) (elt : A -> Glyph)
    (xs : list A) (classes : dict Z (list Glyph)) : Prop :=
  (forall i l, In (i, l) classes ->
     l = map elt (filter (fun x => same (key x) i) xs))
  /\ (forall x, In x xs -> In (key x) (Dict.keys classes)).

(** The state of the matrix loop after the cells [cells]. *)
Definition loop_ok (subtable : PairPos) (st : Extracted)
    (cells : list (Z * Z * Class2RecordT)) : Prop :=
  classes_ok (class1_id subtable) (fun g => g)
    subtable.(Coverage).(glyphs) st.(classes1)
  /\ classes_ok snd fst subtable.(ClassDef2).(classDefs) st.(classes2)
  /\ st.(all_pairs) = fold_left (store_cell subtable) cells [].

(** The entries of a matrix that have a given class1 key, in the order of
    the matrix. *)
Definition matrix_line (pairs : Pairs) (class1 : GlyphTuple) : Pairs :=
  filter (fun item => same (class1_of item) class1) pairs.

(** The vectors given to the clustering: one row for each class1 key, one
    column for each class2 key. *)
Definition occupancy_vectors (list_of_set : list GlyphTuple -> list GlyphTuple)
    (pairs : Pairs) : list (list Z) :=
  map (fun class1 =>
         map (fun class2 => if Dict.mem pairs (class1, class2) then 1 else 0)
             (list_of_set (map (fun pr => snd pr) (Dict.keys pairs))))
      (list_of_set (map (fun pr => fst pr) (Dict.keys pairs))).

(** [label == -1] *)
Definition is_outlier (cl : GlyphTuple * Z) : bool := Z.eqb (snd cl) (-1).

(** The rows that have a label other than -1. *)
Definition clustered (cls : list (GlyphTuple * Z)) : list (GlyphTuple * Z) :=
  filter (fun cl => negb (is_outlier cl)) cls.

(** The groups for rows and their labels, written without a loop: for each
    label other than -1, in the order in which the labels first come up,
    the lines of its rows one after the other; then the line of each row
    labelled -1. *)
Definition clustered_groups (pairs : Pairs) (cls : list (GlyphTuple * Z))
  : list Pairs :=
  map (fun label =>
         flat_map (fun cl => matrix_line pairs (fst cl))
                  (filter (fun cl => same (snd cl) label) (clustered cls)))
      (first_occurrences (map snd (clustered cls)))
  ++ map (fun cl => matrix_line pairs (fst cl)) (filter is_outlier cls).

(** The body of the loop over the labels when the line of a row is simply
    appended to the group of its label. *)
Definition merge_line (line : GlyphTuple -> Pairs)
    (st : dict Z Pairs * list Pairs) (cl : GlyphTuple * Z)
  : dict Z Pairs * list Pairs :=
  if is_outlier cl then (fst st, snd st ++ [line (fst cl)])
  else (Dict.set (fst st) (snd cl)
          (Dict.get_or (fst st) (snd cl) [] ++ line (fst cl)),
        snd st).

(** [f] applied to the values of a dictionary. *)
Definition map_values {K V W : Type} (f : V -> W) (d : dict K V) : dict K W :=
  map (fun kv => (fst kv, f (snd kv))) d.

(** The two parts of the state of that loop after the rows [cls]. *)
Definition merged_groups (line : GlyphTuple -> Pairs)
    (cls : list (GlyphTuple * Z)) : dict Z Pairs :=
  map_values (@List.concat (PairKey * ValuePair))
    (grouped snd (fun cl => line (fst cl)) (clustered cls)).

Definition outlier_lines (line : GlyphTuple -> Pairs)
    (cls : list (GlyphTuple * Z)) : list Pairs :=
  map (fun cl => line (fst cl)) (filter is_outlier cls).

(** A clustering that answers the labels -1 and 7. *)
Definition outlier_then_seven (kwargs : Kwargs) (vectors : list (list Z))
  : result (list Z) :=
  Ok [-1; 7].

(** The names that [cluster_pairs_by_class2_coverage] sets itself. *)
Definition set_by_clustering (name : string) : Prop :=
  name = "n_clusters" \/ name = "linkage" \/ name = "distance_threshold".

(** The two lines of the example of the specification. *)
Definition line_ab : Pairs :=
  [ (["a"; "b"], ["x"], (Some (advance 10), None));
    (["a"; "b"], ["y"], (Some (advance 20), None)) ].

Definition line_c : Pairs := [ (["c"], ["x"], (Some (advance 30), None)) ].

(** The wrapper that [compact_ext_lookup] makes for a subtable. *)
Definition fresh_wrapper (subtable : SubTableT) : SubTableT :=
  ExtensionPosT 1 None subtable.

(** A lookup and what [compact] makes of it: the same type, and the same
    lookup when the type is neither 2 nor 9. *)
Definition rewritten_from (lookup lookup' : Lookup) : Prop :=
  lookup'.(LookupType) = lookup.(LookupType)
  /\ (lookup.(LookupType) <> 2 -> lookup.(LookupType) <> 9 ->
      lookup' = lookup).

(** A single-adjustment lookup, which [compact] has nothing to do with. *)
Definition single_pos_lookup : Lookup :=
  {| LookupType := 1; SubTable := [OtherT 1; OtherT 2]; SubTableCount := 2 |}.

(** A subtable of one class1 class, with one kerning value. *)
Definition single_class_subtable : PairPos :=
  class_subtable ["a"; "b"] [] [("x", 1)] [ [zero_cell; kern 10] ].

(** * Properties *)

(** ** Facts about dictionaries *)

Section DictFacts.
Context {K V : Type} `{EqDec K}.
Implicit Types (d : dict K V) (k : K) (v : V).

Lemma get_None_notin d k : Dict.get d k = None <-> ~ In k (Dict.keys d).
Proof.
  induction d as [|[k' v'] d IH]; simpl.
  - tauto.
  - destruct (eq_dec k k') as [->|Hne].
    + split; [discriminate | intros Hn; exfalso; apply Hn; now left].
    + rewrite IH. split.
      * intros Hn [Heq|Hin]; [congruence | tauto].
      * intros Hn Hin. apply Hn. now right.
Qed.

Lemma get_Some_in_keys d k v : Dict.get d k = Some v -> In k (Dict.keys d).
Proof.
  intros Hg. destruct (in_dec eq_dec k (Dict.keys d)) as [Hin|Hn]; trivial.
  apply get_None_notin in Hn. congruence.
Qed.

Lemma in_keys_get d k : In k (Dict.keys d) -> exists v, Dict.get d k = Some v.
Proof.
  intros Hin. destruct (Dict.get d k) as [v|] eqn:Hg; eauto.
  apply get_None_notin in Hg. contradiction.
Qed.

Lemma get_Some_split d k v :
  Dict.get d k = Some v ->
  exists d1 d2, d = d1 ++ (k, v) :: d2 /\ ~ In k (Dict.keys d1).
Proof.
  induction d as [|[k' v'] d IH]; simpl; [discriminate|].
  destruct (eq_dec k k') as [->|Hne].
  - intros [= ->]. exists [], d. simpl. tauto.
  - intros Hg. destruct (IH Hg) as (d1 & d2 & -> & Hn).
    exists ((k', v') :: d1), d2. simpl. split; [reflexivity|].
    intros [Heq|Hin]; [congruence | tauto].
Qed.

Lemma get_Some_In d k v : Dict.get d k = Some v -> In (k, v) d.
Proof.
  intros Hg. destruct (get_Some_split _ _ _ Hg) as (d1 & d2 & -> & _).
  apply in_elt.
Qed.

Lemma In_get d k v :
  NoDup (Dict.keys d) -> In (k, v) d -> Dict.get d k = Some v.
Proof.
  induction d as [|[k' v'] d IH]; simpl; [tauto|].
  intros Hnd [Heq|Hin]; inversion Hnd as [|? ? Hnotin Hnd']; subst.
  - inversion Heq; subst. destruct (eq_dec k k); congruence.
  - destruct (eq_dec k k') as [->|Hne].
    + exfalso. apply Hnotin. change k' with (fst (k', v)).
      now apply in_map.
    + auto.
Qed.

Lemma set_fresh d k v : ~ In k (Dict.keys d) -> Dict.set d k v = d ++ [(k, v)].
Proof.
  induction d as [|[k' v'] d IH]; simpl; intros Hn; [reflexivity|].
  destruct (eq_dec k k') as [->|Hne]; [tauto|].
  rewrite IH; tauto.
Qed.

Lemma set_split d1 d2 k v0 v :
  ~ In k (Dict.keys d1) ->
  Dict.set (d1 ++ (k, v0) :: d2) k v = d1 ++ (k, v) :: d2.
Proof.
  induction d1 as [|[k' v'] d1 IH]; simpl; intros Hn.
  - destruct (eq_dec k k); congruence.
  - destruct (eq_dec k k') as [->|Hne]; [tauto|].
    rewrite IH; tauto.
Qed.

Lemma keys_set_in d k v : In k (Dict.keys d) -> Dict.keys (Dict.set d k v) = Dict.keys d.
Proof.
  intros Hin. destruct (in_keys_get _ _ Hin) as [v0 Hg].
  destruct (get_Some_split _ _ _ Hg) as (d1 & d2 & -> & Hn).
  rewrite set_split by assumption. unfold Dict.keys.
  now rewrite !map_app.
Qed.

Lemma keys_set_fresh d k v :
  ~ In k (Dict.keys d) -> Dict.keys (Dict.set d k v) = Dict.keys d ++ [k].
Proof.
  intros Hn. rewrite set_fresh by assumption. unfold Dict.keys.
  now rewrite map_app.
Qed.

Lemma in_keys_set d k v k' :
  In k' (Dict.keys (Dict.set d k v)) <-> k' = k \/ In k' (Dict.keys d).
Proof.
  destruct (in_dec eq_dec k (Dict.keys d)) as [Hin|Hn].
  - rewrite keys_set_in by assumption. split; [tauto|].
    intros [->|?]; assumption.
  - rewrite keys_set_fresh by assumption. rewrite in_app_iff. simpl.
    split; [intros [?|[?|[]]]; auto | intros [?|?]; auto].
Qed.

Lemma NoDup_keys_set d k v :
  NoDup (Dict.keys d) -> NoDup (Dict.keys (Dict.set d k v)).
Proof.
  intros Hnd. destruct (in_dec eq_dec k (Dict.keys d)) as [Hin|Hn].
  - now rewrite keys_set_in.
  - rewrite keys_set_fresh by assumption.
    apply NoDup_app; [assumption | repeat constructor; simpl; tauto |].
    intros x Hx [<-|[]]. contradiction.
Qed.

Lemma length_set_fresh d k v :
  ~ In k (Dict.keys d) -> List.length (Dict.set d k v) = S (List.length d).
Proof.
  intros Hn. rewrite set_fresh by assumption.
  rewrite length_app. simpl. lia.
Qed.

Lemma update_disjoint d other :
  NoDup (Dict.keys other) ->
  (forall k, In k (Dict.keys other) -> ~ In k (Dict.keys d)) ->
  Dict.update d other = d ++ other.
Proof.
  unfold Dict.update. revert d.
  induction other as [|[k v] other IH]; simpl; intros d Hnd Hdisj.
  - now rewrite app_nil_r.
  - inversion Hnd as [|? ? Hnotin Hnd']; subst.
    rewrite set_fresh by (apply Hdisj; now left).
    rewrite IH; trivial.
    + now rewrite <- app_assoc.
    + intros k' Hin. unfold Dict.keys. rewrite map_app, in_app_iff.
      simpl. intros [Hd|[<-|[]]].
      * apply (Hdisj k'); auto.
      * contradiction.
Qed.

Lemma get_set_same d k v : Dict.get (Dict.set d k v) k = Some v.
Proof.
  induction d as [|[k' v'] d IH]; simpl.
  - destruct (eq_dec k k); congruence.
  - destruct (eq_dec k k') as [->|Hne]; simpl.
    + destruct (eq_dec k' k'); congruence.
    + destruct (eq_dec k k'); congruence.
Qed.

Lemma get_set_other d k v k' :
  k' <> k -> Dict.get (Dict.set d k v) k' = Dict.get d k'.
Proof.
  intros Hne. induction d as [|[k0 v0] d IH]; simpl.
  - destruct (eq_dec k' k); congruence.
  - destruct (eq_dec k k0) as [->|Hne0]; simpl.
    + destruct (eq_dec k' k0); congruence.
    + destruct (eq_dec k' k0); congruence.
Qed.

End DictFacts.

(** ** Matrix lines partition the matrix *)

Lemma concat_values_app {K : Type} (d1 d2 : dict K Pairs) :
  List.concat (Dict.values (d1 ++ d2)) =
  List.concat (Dict.values d1) ++ List.concat (Dict.values d2).
Proof. unfold Dict.values. now rewrite map_app, concat_app. Qed.

Lemma in_concat_values {K : Type} (d : dict K Pairs) (x : PairKey * ValuePair) :
  In x (List.concat (Dict.values d)) <-> exists k g, In (k, g) d /\ In x g.
Proof.
  rewrite in_concat. unfold Dict.values. split.
  - intros (g & Hg & Hx). apply in_map_iff in Hg.
    destruct Hg as ([k g'] & <- & Hin). eauto.
  - intros (k & g & Hin & Hx). exists g. split; trivial.
    change g with (snd (k, g)). now apply in_map.
Qed.

Lemma lines_inv_nil : lines_inv [] [].
Proof. split; simpl; [constructor | constructor | tauto]. Qed.

Lemma lines_inv_step lines done pr v :
  lines_inv lines done ->
  ~ In pr (Dict.keys done) ->
  lines_inv (add_to_line lines (pr, v)) (done ++ [(pr, v)]).
Proof.
  intros [Hnd Hperm Hrows] Hfresh.
  unfold add_to_line, Dict.getitem_default.
  destruct (Dict.get lines (fst pr)) as [line|] eqn:Hg.
  - destruct (get_Some_split _ _ _ Hg) as (l1 & l2 & -> & Hn1).
    assert (Hline : ~ In pr (Dict.keys line)).
    { intros Hin. apply in_map_iff in Hin. destruct Hin as ([k v'] & Hk & Hin).
      simpl in Hk. subst k. apply Hfresh.
      change pr with (fst (pr, v')). apply in_map.
      apply (Permutation_in _ Hperm). apply in_concat_values.
      exists (fst pr), line. split; [apply in_elt | assumption]. }
    rewrite set_split by assumption. rewrite set_fresh by assumption.
    split.
    + unfold Dict.keys in *. rewrite map_app in *. exact Hnd.
    + rewrite concat_values_app in *. simpl in *.
      etransitivity; [| apply Permutation_app_tail; exact Hperm ].
      rewrite <- !app_assoc. do 2 apply Permutation_app_head.
      apply Permutation_app_comm.
    + intros r g Hin. apply in_app_or in Hin.
      destruct Hin as [Hin|[Heq|Hin]].
      * apply (Hrows r g). apply in_or_app. now left.
      * inversion Heq; subst. split; [now destruct line|].
        intros item Hitem. apply in_app_or in Hitem.
        destruct Hitem as [Hitem|[<-|[]]]; [|reflexivity].
        apply (Hrows (fst pr) line); [apply in_elt | assumption].
      * apply (Hrows r g). apply in_or_app. right. now right.
  - apply get_None_notin in Hg.
    rewrite (set_fresh lines (fst pr) [] Hg).
    replace (lines ++ [(fst pr, [])]) with (lines ++ (fst pr, []) :: [])
      by reflexivity.
    rewrite set_split by assumption. simpl.
    split.
    + unfold Dict.keys in *. rewrite map_app. simpl.
      apply NoDup_app; [assumption | repeat constructor; simpl; tauto |].
      intros x Hx [<-|[]]. contradiction.
    + rewrite concat_values_app. simpl.
      now apply Permutation_app_tail.
    + intros r g Hin. apply in_app_or in Hin.
      destruct Hin as [Hin|[Heq|[]]]; [now apply Hrows|].
      inversion Heq; subst. split; [discriminate|].
      intros item [<-|[]]. reflexivity.
Qed.

Lemma lines_inv_fold todo : forall lines done,
  lines_inv lines done ->
  NoDup (Dict.keys (done ++ todo)) ->
  lines_inv (fold_left add_to_line todo lines) (done ++ todo).
Proof.
  induction todo as [|[pr v] todo IH]; simpl; intros lines done Hinv Hnd.
  - now rewrite app_nil_r.
  - replace (done ++ (pr, v) :: todo) with ((done ++ [(pr, v)]) ++ todo) in *
      by (now rewrite <- app_assoc).
    apply IH; trivial.
    apply lines_inv_step; trivial.
    unfold Dict.keys in Hnd. rewrite !map_app in Hnd. simpl in Hnd.
    rewrite <- app_assoc in Hnd. simpl in Hnd.
    apply NoDup_remove_2 in Hnd. intros Hin. apply Hnd.
    apply in_or_app. now left.
Qed.

Lemma group_by_class1_inv (pairs : Pairs) :
  NoDup (Dict.keys pairs) -> lines_inv (group_by_class1 pairs) pairs.
Proof.
  intros Hnd. apply (lines_inv_fold pairs [] [] lines_inv_nil Hnd).
Qed.

(** The rows of [lines] are the class1 keys of the items. *)
Lemma lines_inv_keys lines done r :
  lines_inv lines done ->
  In r (Dict.keys lines) <-> In r (map class1_of done).
Proof.
  intros [Hnd Hperm Hrows]. split.
  - intros Hin. apply in_map_iff in Hin. destruct Hin as ([r' g] & Hr & Hin).
    simpl in Hr. subst r'. destruct (Hrows _ _ Hin) as [Hne Hcls].
    destruct g as [|item g]; [congruence|].
    rewrite <- (Hcls item (or_introl eq_refl)). apply in_map.
    apply (Permutation_in _ Hperm). apply in_concat_values.
    exists r, (item :: g). split; [assumption | now left].
  - intros Hin. apply in_map_iff in Hin. destruct Hin as (item & <- & Hin).
    apply (Permutation_in _ (Permutation_sym Hperm)) in Hin.
    apply in_concat_values in Hin. destruct Hin as (r' & g & Hin & Hitem).
    destruct (Hrows _ _ Hin) as [_ Hcls]. rewrite (Hcls _ Hitem).
    change r' with (fst (r', g)). now apply in_map.
Qed.

(** ** The extracted matrix is a dictionary *)

Lemma fold_left_preserves {S A : Type} (P : S -> Prop) (f : S -> A -> S) l :
  (forall s x, P s -> P (f s x)) -> forall s, P s -> P (fold_left f l s).
Proof.
  intros Hf. induction l as [|x l IH]; simpl; auto.
Qed.

Lemma extract_cell_nodup i st jc :
  NoDup (Dict.keys st.(all_pairs)) ->
  NoDup (Dict.keys (extract_cell i st jc).(all_pairs)).
Proof.
  intros Hnd. unfold extract_cell. destruct jc as [j class2].
  destruct (is_really_zero (Value1 class2) && is_really_zero (Value2 class2));
    trivial.
  destruct (Dict.getitem_default (classes1 st) i []) as [c1 cl1].
  destruct (Dict.getitem_default (classes2 st) j []) as [c2 cl2].
  simpl. now apply NoDup_keys_set.
Qed.

Lemma extract_pairs_nodup subtable :
  NoDup (Dict.keys (extract_pairs subtable).(all_pairs)).
Proof.
  unfold extract_pairs.
  apply (fold_left_preserves (fun st => NoDup (Dict.keys st.(all_pairs)))).
  - intros st [i class1] Hnd. unfold extract_row.
    apply (fold_left_preserves (fun st => NoDup (Dict.keys st.(all_pairs))));
      trivial.
    intros. now apply extract_cell_nodup.
  - simpl. constructor.
Qed.

Lemma mapM_Ok {A : Type} (l : list A) : mapM (fun x => Ok x) l = Ok l.
Proof.
  induction l as [|x l IH]; simpl; trivial. now rewrite IH.
Qed.

Lemma length_group_by_class1 (pairs : Pairs) :
  NoDup (Dict.keys pairs) ->
  List.length (group_by_class1 pairs) = List.length (distinct_class1 pairs).
Proof.
  intros Hnd. pose proof (group_by_class1_inv _ Hnd) as Hinv.
  rewrite <- (length_map fst (group_by_class1 pairs)).
  apply Permutation_length. apply NoDup_Permutation.
  - apply (li_nodup _ _ Hinv).
  - apply NoDup_nodup.
  - intros r. unfold distinct_class1. rewrite nodup_In.
    apply (lines_inv_keys _ _ r Hinv).
Qed.

Section Strategies.

Variable fit_predict : Kwargs -> list (list Z) -> result (list Z).
Variable list_of_set : list GlyphTuple -> list GlyphTuple.
Variables (ttf : TTFont) (lookup : Lookup).

(** C9. Under "one" the builder is called once, on the whole pair matrix:
    the strategy returns exactly one group, and the group is the matrix
    the extraction produced (whether or not it is empty). *)
Theorem one_strategy_single_group (kwargs : Kwargs) (subtable : PairPos) :
  subtable_groups fit_predict list_of_set ttf (mode_config "one" kwargs)
    lookup subtable
  = Ok [ (extract_pairs subtable).(all_pairs) ]
  /\ forall (B : Type) (build : Pairs -> GlyphMap -> result B),
       compact_class_pairs fit_predict list_of_set build ttf
         (mode_config "one" kwargs) lookup subtable
       = (s <- build (extract_pairs subtable).(all_pairs)
                 ttf.(getReverseGlyphMap) ;; Ok [s]).
Proof.
  split; [|intros B build];
    unfold subtable_groups, compact_class_pairs; simpl; reflexivity.
Qed.

(** C6. Under "max" the strategy returns as many groups as the matrix has
    distinct class1 keys, one for each of them: a group is not empty, it
    holds the entries of the matrix under one class1 key of the matrix and
    no other entry, so that the keys of one group all have the same class1
    glyph tuple; and every class1 key of the matrix has its group.  This
    holds for every matrix, the empty one included (no group then). *)
Theorem max_strategy_one_group_per_class1 (kwargs : Kwargs)
    (subtable : PairPos) :
  exists groups,
    subtable_groups fit_predict list_of_set ttf (mode_config "max" kwargs)
      lookup subtable = Ok groups
    /\ List.length groups
       = List.length (distinct_class1 (extract_pairs subtable).(all_pairs))
    /\ (forall g, In g groups ->
          forall k k', In k (Dict.keys g) -> In k' (Dict.keys g) ->
            fst k = fst k')
    /\ (forall g, In g groups ->
          g <> []
          /\ exists c,
               In c (distinct_class1 (extract_pairs subtable).(all_pairs))
               /\ forall item,
                    In item g
                    <-> In item (extract_pairs subtable).(all_pairs)
                        /\ class1_of item = c)
    /\ (forall c,
          In c (distinct_class1 (extract_pairs subtable).(all_pairs)) ->
          exists g,
            In g groups
            /\ forall item,
                 In item g
                 <-> In item (extract_pairs subtable).(all_pairs)
                     /\ class1_of item = c).
Proof.
  pose proof (extract_pairs_nodup subtable) as Hnd.
  pose proof (group_by_class1_inv _ Hnd) as Hinv.
  set (pairs := (extract_pairs subtable).(all_pairs)) in *.
  assert (Hline : forall r g, In (r, g) (group_by_class1 pairs) ->
            forall item, In item g <-> In item pairs /\ class1_of item = r).
  { intros r g Hin item. destruct (li_rows _ _ Hinv _ _ Hin) as [_ Hcls].
    split.
    - intros Hitem. split; [|now apply Hcls].
      apply (Permutation_in _ (li_perm _ _ Hinv)). apply in_concat_values.
      now exists r, g.
    - intros [Hitem Hc].
      apply (Permutation_in _ (Permutation_sym (li_perm _ _ Hinv))) in Hitem.
      apply in_concat_values in Hitem.
      destruct Hitem as (r' & g' & Hin' & Hitem).
      destruct (li_rows _ _ Hinv _ _ Hin') as [_ Hcls'].
      assert (r' = r) by (now rewrite <- (Hcls' _ Hitem)). subst r'.
      pose proof (In_get _ _ _ (li_nodup _ _ Hinv) Hin) as Hg.
      pose proof (In_get _ _ _ (li_nodup _ _ Hinv) Hin') as Hg'.
      assert (g = g') by congruence. now subst g'. }
  exists (Dict.values (group_by_class1 pairs)).
  split; [|split; [|split; [|split]]].
  - unfold subtable_groups, compact_class_pairs. simpl. apply mapM_Ok.
  - unfold Dict.values. rewrite length_map.
    now apply length_group_by_class1.
  - intros g Hg k k' Hk Hk'. apply in_map_iff in Hg.
    destruct Hg as ([r g'] & Heq & Hin). simpl in Heq. subst g'.
    destruct (li_rows _ _ Hinv _ _ Hin) as [_ Hcls].
    apply in_map_iff in Hk. destruct Hk as (item & <- & Hitem).
    apply in_map_iff in Hk'. destruct Hk' as (item' & <- & Hitem').
    pose proof (Hcls _ Hitem) as H1. pose proof (Hcls _ Hitem') as H2.
    unfold class1_of in *. congruence.
  - intros g Hg. apply in_map_iff in Hg.
    destruct Hg as ([r g'] & Heq & Hin). simpl in Heq. subst g'.
    split; [exact (proj1 (li_rows _ _ Hinv _ _ Hin))|].
    exists r. split; [|exact (Hline r g Hin)].
    unfold distinct_class1. rewrite nodup_In.
    apply (lines_inv_keys _ _ r Hinv).
    change r with (fst (r, g)). now apply in_map.
  - intros c Hc. unfold distinct_class1 in Hc. rewrite nodup_In in Hc.
    apply (lines_inv_keys _ _ c Hinv) in Hc.
    apply in_map_iff in Hc. destruct Hc as ([r g] & Hr & Hin).
    simpl in Hr. subst r. exists g. split; [|exact (Hline c g Hin)].
    change g with (snd (c, g)). now apply in_map.
Qed.

End Strategies.

(** ** Clustering keeps every line *)

Lemma line_of_class1 lines done c item :
  lines_inv lines done -> In item (line_of lines c) -> class1_of item = c.
Proof.
  intros Hinv. unfold line_of, Dict.get_or.
  destruct (Dict.get lines c) as [g|] eqn:Hg; [|intros []].
  apply get_Some_In in Hg. now apply (li_rows _ _ Hinv c g).
Qed.

Lemma line_of_nodup lines done c :
  lines_inv lines done -> NoDup (Dict.keys done) ->
  NoDup (Dict.keys (line_of lines c)).
Proof.
  intros Hinv Hnd. unfold line_of, Dict.get_or.
  destruct (Dict.get lines c) as [g|] eqn:Hg; [|constructor].
  destruct (get_Some_split _ _ _ Hg) as (l1 & l2 & Heq & _).
  pose proof (li_perm _ _ Hinv) as Hperm. rewrite Heq in Hperm.
  rewrite concat_values_app in Hperm. simpl in Hperm.
  apply (Permutation_map fst) in Hperm.
  apply Permutation_sym in Hperm.
  pose proof (Permutation_NoDup Hperm Hnd) as Hnd'.
  rewrite !map_app in Hnd'.
  apply NoDup_app_remove_l in Hnd'. now apply NoDup_app_remove_r in Hnd'.
Qed.

Lemma in_flat_map_line lines rows item :
  In item (flat_map (line_of lines) rows) <->
  exists c, In c rows /\ In item (line_of lines c).
Proof. apply in_flat_map. Qed.

Lemma assign_line_placed lines done st rows c label :
  lines_inv lines done -> NoDup (Dict.keys done) ->
  Permutation (placed st) (flat_map (line_of lines) rows) ->
  ~ In c rows ->
  Permutation (placed (assign_line lines st (c, label)))
              (flat_map (line_of lines) (rows ++ [c])).
Proof.
  intros Hinv Hnd Hperm Hc. destruct st as [grouped ungrouped].
  rewrite flat_map_app. simpl. rewrite app_nil_r.
  unfold assign_line, placed in *. simpl in *.
  fold (line_of lines c).
  destruct (Z.eqb label (-1)).
  - simpl. rewrite concat_app. simpl. rewrite app_nil_r, app_assoc.
    now apply Permutation_app_tail.
  - unfold Dict.getitem_default.
    destruct (Dict.get grouped label) as [group|] eqn:Hg.
    + destruct (get_Some_split _ _ _ Hg) as (g1 & g2 & -> & Hn1).
      rewrite set_split by assumption. simpl.
      rewrite update_disjoint.
      * rewrite concat_values_app in *. simpl in *.
        etransitivity; [| apply Permutation_app_tail; exact Hperm ].
        rewrite <- !app_assoc. do 2 apply Permutation_app_head.
        rewrite !app_assoc. rewrite <- app_assoc.
        apply Permutation_app_comm.
      * now apply (line_of_nodup lines done).
      * intros k Hk Hk'.
        apply in_map_iff in Hk. destruct Hk as (item & Hfst & Hitem).
        apply in_map_iff in Hk'. destruct Hk' as (item' & Hfst' & Hitem').
        apply (line_of_class1 _ _ _ _ Hinv) in Hitem.
        assert (Hin : In item' (flat_map (line_of lines) rows)).
        { apply (Permutation_in _ Hperm). apply in_or_app. left.
          apply in_concat_values. exists label, group.
          split; [apply in_elt | assumption]. }
        apply in_flat_map_line in Hin. destruct Hin as (c' & Hc' & Hin).
        apply (line_of_class1 _ _ _ _ Hinv) in Hin.
        apply Hc. unfold class1_of in *. congruence.
    + apply get_None_notin in Hg. simpl.
      rewrite (set_fresh grouped label [] Hg).
      replace (grouped ++ [(label, [])]) with (grouped ++ (label, []) :: [])
        by reflexivity.
      rewrite set_split by assumption.
      rewrite update_disjoint;
        [| now apply (line_of_nodup lines done) | intros k _ [] ].
      rewrite concat_values_app. simpl. rewrite app_nil_r.
      etransitivity; [| apply Permutation_app_tail; exact Hperm ].
      rewrite <- !app_assoc. apply Permutation_app_head.
      apply Permutation_app_comm.
Qed.

Lemma assign_lines_placed lines done cls : forall st rows,
  lines_inv lines done -> NoDup (Dict.keys done) ->
  Permutation (placed st) (flat_map (line_of lines) rows) ->
  NoDup (rows ++ map fst cls) ->
  Permutation (placed (fold_left (assign_line lines) cls st))
              (flat_map (line_of lines) (rows ++ map fst cls)).
Proof.
  induction cls as [|[c label] cls IH]; simpl; intros st rows Hinv Hnd Hp Hrows.
  - now rewrite app_nil_r.
  - replace (rows ++ c :: map fst cls) with ((rows ++ [c]) ++ map fst cls) in *
      by (now rewrite <- app_assoc).
    apply IH; trivial.
    apply (assign_line_placed lines done); trivial.
    rewrite <- app_assoc in Hrows. simpl in Hrows.
    apply NoDup_remove_2 in Hrows. intros Hin. apply Hrows.
    apply in_or_app. now left.
Qed.

Lemma map_fst_combine {A B : Type} (l1 : list A) : forall l2 : list B,
  List.length l1 = List.length l2 -> map fst (combine l1 l2) = l1.
Proof.
  induction l1 as [|x l1 IH]; intros [|y l2]; simpl; try discriminate; trivial.
  intros [= Hlen]. now rewrite IH.
Qed.

Lemma flat_map_line_keys lines :
  NoDup (Dict.keys lines) ->
  flat_map (line_of lines) (Dict.keys lines) = List.concat (Dict.values lines).
Proof.
  intros Hnd. rewrite flat_map_concat_map. f_equal.
  unfold Dict.keys, Dict.values. rewrite map_map.
  apply map_ext_in. intros [r g] Hin. simpl.
  unfold line_of, Dict.get_or. now rewrite (In_get _ _ _ Hnd Hin).
Qed.

(** ** Conservation *)

Section Conservation.

Variable fit_predict : Kwargs -> list (list Z) -> result (list Z).
Variable list_of_set : list GlyphTuple -> list GlyphTuple.
Hypothesis Hset : enumerates_set list_of_set.
Hypothesis Hlabels : one_label_per_vector fit_predict.

Lemma all_class1_lines (pairs : Pairs) :
  NoDup (Dict.keys pairs) ->
  Permutation
    (list_of_set (map (fun pr => fst pr) (Dict.keys pairs)))
    (Dict.keys (group_by_class1 pairs)).
Proof.
  intros Hnd. pose proof (group_by_class1_inv _ Hnd) as Hinv.
  destruct (Hset (map (fun pr => fst pr) (Dict.keys pairs))) as [Hnd1 Hin1].
  apply NoDup_Permutation; trivial.
  - apply (li_nodup _ _ Hinv).
  - intros r. rewrite Hin1. rewrite (lines_inv_keys _ _ r Hinv).
    unfold Dict.keys. rewrite map_map. reflexivity.
Qed.

Lemma cluster_regroups (pairs : Pairs) (kwargs : Kwargs) groups :
  NoDup (Dict.keys pairs) ->
  cluster_pairs_by_class2_coverage fit_predict list_of_set pairs kwargs
    = Ok groups ->
  regroups groups pairs.
Proof.
  intros Hnd. pose proof (group_by_class1_inv _ Hnd) as Hinv.
  unfold cluster_pairs_by_class2_coverage.
  set (all_class1 := list_of_set (map (fun pr => fst pr) (Dict.keys pairs))).
  set (all_class2 := list_of_set (map (fun pr => snd pr) (Dict.keys pairs))).
  set (vectors := map _ all_class1).
  destruct (clustering_arguments _ kwargs) as [kw|e]; simpl; [|discriminate].
  destruct (fit_predict kw vectors) as [labels|e] eqn:Hfit; simpl;
    [|discriminate].
  destruct (fold_left _ _ _) as [grouped ungrouped] eqn:Hfold.
  intros [= <-]. unfold regroups. rewrite concat_app.
  change (Permutation (placed (grouped, ungrouped)) pairs).
  rewrite <- Hfold.
  assert (Hlen : List.length all_class1 = List.length labels).
  { rewrite (Hlabels _ _ _ Hfit). unfold vectors. now rewrite length_map. }
  pose proof (all_class1_lines _ Hnd) as Hrows. fold all_class1 in Hrows.
  etransitivity.
  - apply (assign_lines_placed _ pairs _ ([], []) []);
      [ exact Hinv | exact Hnd | apply perm_nil | ].
    simpl. rewrite map_fst_combine by assumption.
    apply (Permutation_NoDup (Permutation_sym Hrows)).
    apply (li_nodup _ _ Hinv).
  - simpl. rewrite map_fst_combine by assumption.
    rewrite (Permutation_flat_map (line_of (group_by_class1 pairs)) Hrows).
    rewrite flat_map_line_keys by apply (li_nodup _ _ Hinv).
    apply (li_perm _ _ Hinv).
Qed.

Lemma groups_regroup (ttf : TTFont) (m : string) (kwargs : Kwargs)
    (lookup : Lookup) (subtable : PairPos) groups :
  subtable_groups fit_predict list_of_set ttf (mode_config m kwargs)
    lookup subtable = Ok groups ->
  regroups groups (extract_pairs subtable).(all_pairs).
Proof.
  pose proof (extract_pairs_nodup subtable) as Hnd.
  pose proof (group_by_class1_inv _ Hnd) as Hinv.
  unfold subtable_groups, compact_class_pairs, regroups. simpl.
  destruct (string_dec m "one") as [_|_].
  { intros [= <-]. simpl. now rewrite app_nil_r. }
  destruct (string_dec m "max") as [_|_].
  { rewrite mapM_Ok. intros [= <-]. apply (li_perm _ _ Hinv). }
  destruct (string_dec m "auto") as [_|_]; [|discriminate].
  destruct (len (classes1 (extract_pairs subtable)) <? 2).
  - intros [= <-]. simpl. now rewrite app_nil_r.
  - destruct (cluster_pairs_by_class2_coverage _ _ _ _) as [gs|e] eqn:Hc;
      simpl; [|discriminate].
    rewrite mapM_Ok. intros [= <-].
    now apply (cluster_regroups _ kwargs).
Qed.

(** C2. Whatever the mode among "one", "max" and "auto", the groups the
    strategy returns rearrange the extracted pair matrix: taken together
    they hold each of its items exactly once and nothing else.  "one" and
    "max" always return; "auto" returns unless the clustering raises. *)
Theorem regrouping_conserves_pairs (ttf : TTFont) (m : string)
    (kwargs : Kwargs) (lookup : Lookup) (subtable : PairPos) :
  In m ["one"; "max"; "auto"] ->
  (m <> "auto" ->
     exists groups,
       subtable_groups fit_predict list_of_set ttf (mode_config m kwargs)
         lookup subtable = Ok groups)
  /\ forall groups,
       subtable_groups fit_predict list_of_set ttf (mode_config m kwargs)
         lookup subtable = Ok groups ->
       regroups groups (extract_pairs subtable).(all_pairs).
Proof.
  intros Hm. split; [|apply groups_regroup].
  unfold subtable_groups, compact_class_pairs. simpl.
  destruct Hm as [<-|[<-|[<-|[]]]]; simpl; intros Hauto.
  - eauto.
  - rewrite mapM_Ok. eauto.
  - congruence.
Qed.

End Conservation.

(** ** The stand-ins meet the assumptions *)

Lemma dedup_enumerates : enumerates_set dedup.
Proof.
  intros l. unfold dedup. split; [apply NoDup_nodup|].
  intros x. apply nodup_In.
Qed.

Lemma single_cluster_labels : one_label_per_vector single_cluster.
Proof.
  intros kwargs vectors labels [= <-]. apply length_map.
Qed.

Lemma two_rows_needed_labels : one_label_per_vector two_rows_needed.
Proof.
  intros kwargs vectors labels. unfold two_rows_needed.
  destruct (len vectors <? 2); [discriminate|].
  intros [= <-]. apply length_map.
Qed.

(** ** The builder is called on the groups, one call a group *)

Lemma mapM_length {A B : Type} (f : A -> result B) (l : list A) : forall l',
  mapM f l = Ok l' -> List.length l' = List.length l.
Proof.
  induction l as [|x l IH]; simpl; intros l'.
  - now intros [= <-].
  - destruct (f x) as [y|e]; simpl; [|discriminate].
    destruct (mapM f l) as [ys|e]; simpl; [|discriminate].
    intros [= <-]. simpl. now rewrite (IH ys).
Qed.

Lemma compact_class_pairs_via_groups fit_predict list_of_set
    (B : Type) (build : Pairs -> GlyphMap -> result B)
    (ttf : TTFont) (config : Config) (lookup : Lookup) (subtable : PairPos) :
  compact_class_pairs fit_predict list_of_set build ttf config lookup subtable
  = (groups <- subtable_groups fit_predict list_of_set ttf config lookup
                 subtable ;;
     mapM (fun pairs => build pairs ttf.(getReverseGlyphMap)) groups).
Proof.
  unfold subtable_groups, compact_class_pairs.
  destruct (string_dec (mode config) "one") as [_|_].
  { simpl. now destruct (build _ _). }
  destruct (string_dec (mode config) "max") as [_|_].
  { now rewrite mapM_Ok. }
  destruct (string_dec (mode config) "auto") as [_|_]; [|reflexivity].
  destruct (len _ <? 2).
  - simpl. now destruct (build _ _).
  - destruct (cluster_pairs_by_class2_coverage _ _ _ _) as [gs|e]; simpl;
      [|reflexivity].
    now rewrite mapM_Ok.
Qed.

Lemma regroups_nonempty (groups : list Pairs) (pairs : Pairs) :
  regroups groups pairs -> pairs <> [] -> (1 <= List.length groups)%nat.
Proof.
  unfold regroups. intros Hperm Hne. destruct groups as [|g groups].
  - simpl in Hperm. apply Permutation_nil in Hperm. congruence.
  - simpl. lia.
Qed.

(** ** How many subtables a class-based subtable becomes *)

(** C5, as the code has it.  When [compact_class_pairs] returns, a pair
    matrix that is not empty has given at least one subtable, whatever the
    mode.  An empty matrix gives no subtable under "max"; under "one", and
    under "auto" when the subtable has fewer than 2 class1 classes, the
    builder is called once all the same and one subtable comes out. *)
Theorem subtable_count_by_mode fit_predict list_of_set
    (B : Type) (build : Pairs -> GlyphMap -> result B)
    (ttf : TTFont) (m : string) (kwargs : Kwargs) (lookup : Lookup)
    (subtable : PairPos) (subtables : list B) :
  enumerates_set list_of_set ->
  one_label_per_vector fit_predict ->
  compact_class_pairs fit_predict list_of_set build ttf (mode_config m kwargs)
    lookup subtable = Ok subtables ->
  let ex := extract_pairs subtable in
  (ex.(all_pairs) <> [] -> (1 <= List.length subtables)%nat)
  /\ (ex.(all_pairs) = [] -> m = "max" -> subtables = [])
  /\ (m = "one" \/ (m = "auto" /\ len ex.(classes1) < 2) ->
      List.length subtables = 1%nat).
Proof.
  intros Hset Hlabels Hrun ex.
  rewrite compact_class_pairs_via_groups in Hrun.
  destruct (subtable_groups _ _ _ _ _ _) as [groups|e] eqn:Hgroups;
    simpl in Hrun; [|discriminate].
  apply mapM_length in Hrun. rewrite Hrun.
  split; [|split].
  - intros Hne.
    apply (regroups_nonempty groups (all_pairs ex)); trivial.
    now apply (groups_regroup fit_predict list_of_set Hset Hlabels
                 ttf m kwargs lookup).
  - intros Hempty ->.
    unfold subtable_groups, compact_class_pairs in Hgroups. simpl in Hgroups.
    fold ex in Hgroups. rewrite Hempty in Hgroups. simpl in Hgroups.
    injection Hgroups as <-. simpl in Hrun.
    now apply length_zero_iff_nil.
  - unfold subtable_groups, compact_class_pairs in Hgroups. simpl in Hgroups.
    fold ex in Hgroups.
    intros [->|[-> Hlt]]; simpl in Hgroups.
    + now injection Hgroups as <-.
    + apply Z.ltb_lt in Hlt. rewrite Hlt in Hgroups.
      now injection Hgroups as <-.
Qed.

(** Under "one" a subtable whose values are all zero has an empty matrix
    and still becomes one subtable, not none. *)
Lemma empty_matrix_one_subtable :
  (extract_pairs zero_subtable).(all_pairs) = []
  /\ ~ (forall subtables,
          compact_class_pairs single_cluster dedup example_builder
            (font_of []) (mode_config "one" []) (pair_lookup [zero_subtable])
            zero_subtable = Ok subtables ->
          List.length subtables = 0%nat).
Proof.
  split; [reflexivity|].
  intros Hzero.
  specialize (Hzero _ eq_refl). discriminate.
Qed.

Lemma subtable_count_by_mode_witness :
  (1 <= List.length [ (extract_pairs spec_example_subtable).(all_pairs) ])%nat.
Proof.
  apply (subtable_count_by_mode single_cluster dedup Pairs
           (fun pairs _ => Ok pairs) (font_of []) "auto" []
           (pair_lookup [spec_example_subtable]) spec_example_subtable
           [ (extract_pairs spec_example_subtable).(all_pairs) ]
           dedup_enumerates single_cluster_labels eq_refl).
  vm_compute. discriminate.
Defined.

(** ** The zero-value filter looks at the scalars only *)

Lemma is_really_zero_scalars (value : ValueRecord) :
  is_really_zero (Some value) = scalars_zero value.
Proof.
  destruct value as [xp yp xa ya d1 d2 d3 d4].
  destruct xp, yp, xa, ya; vm_compute;
    repeat match goal with
           | |- context [match ?z with Z0 => _ | Zpos _ => _ | Zneg _ => _ end] =>
               destruct z
           end; reflexivity.
Qed.

(** C1 at the failing input.  The device check of [is_really_zero] runs over
    the letters of one concatenated string, so it never sees a device table:
    the filter is the scalar test alone.  A value with zero advance and a
    device table on it is not a semantic zero, yet the filter takes it for
    one, and the only cell of [device_subtable] is dropped from the pair
    matrix. *)
Theorem device_table_not_checked :
  (forall value, is_really_zero (Some value) = scalars_zero value)
  /\ spec_semantically_zero (Some device_only) = false
  /\ is_really_zero (Some device_only) = true
  /\ (extract_pairs device_subtable).(all_pairs) = [].
Proof.
  split; [exact is_really_zero_scalars|].
  repeat split; reflexivity.
Qed.

(** ** "auto" on a matrix of one row *)

(** C3 at the failing input.  [sparse_subtable] has two class1 classes and
    kerning values in the first only: its pair matrix has one class1 key,
    but [len(classes1)] is 2, so "auto" does not take the "one" path.  It
    calls the clustering on the single row [[1]]; when that raises, as
    scikit-learn does for fewer than two rows, so does "auto", where "one"
    returns the whole matrix as one group. *)
Theorem auto_clusters_a_single_row :
  let ex := extract_pairs sparse_subtable in
  let ttf := font_of [pair_lookup [sparse_subtable]] in
  let lookup := pair_lookup [sparse_subtable] in
  List.length (distinct_class1 ex.(all_pairs)) = 1%nat
  /\ len ex.(classes1) = 2
  /\ (forall fit_predict list_of_set,
        subtable_groups fit_predict list_of_set ttf (mode_config "one" [])
          lookup sparse_subtable = Ok [ex.(all_pairs)])
  /\ (forall fit_predict,
        match fit_predict default_arguments [[1]] with
        | Raise e =>
            subtable_groups fit_predict dedup ttf (mode_config "auto" [])
              lookup sparse_subtable = Raise e
        | Ok _ => True
        end)
  /\ subtable_groups two_rows_needed dedup ttf (mode_config "auto" [])
       lookup sparse_subtable
     = Raise (ValueError "minimum of 2 samples required").
Proof.
  repeat split; try reflexivity.
  intros fit_predict.
  destruct (fit_predict default_arguments [[1]]) as [labels|e] eqn:Hfit;
    trivial.
  unfold subtable_groups, compact_class_pairs. simpl.
  unfold cluster_pairs_by_class2_coverage. simpl.
  match goal with
  | |- context [fit_predict ?kw ?vectors] =>
      change (fit_predict kw vectors)
        with (fit_predict default_arguments [[1]])
  end.
  now rewrite Hfit.
Qed.

(** ** The cluster count for [lines_per_cluster] *)

Lemma get_mem_true (kwargs : Kwargs) (k : string) (v : pyval) :
  Dict.get kwargs k = Some v -> Dict.mem kwargs k = true.
Proof. unfold Dict.mem. now intros ->. Qed.







(** The quotient of doubles.  5 lines and 3.0 lines per cluster give 1
    cluster and 7 lines and 2.0 give 3, the integer parts of 1.66... and of
    3.5; half a line per cluster gives twice as many clusters as lines, cut
    down to their number; a negative parameter gives 1; an infinite quotient
    cannot be made an integer, and a zero of either sign cannot divide. *)
Example n_clusters_for_floats :
  n_clusters_passed 5 [("lines_per_cluster", PyFloat 3)]
  = Ok (Some (PyInt 1))
  /\ n_clusters_passed 7 [("lines_per_cluster", PyFloat 2)]
     = Ok (Some (PyInt 3))
  /\ n_clusters_passed 5 [("lines_per_cluster", PyFloat 0.5)]
     = Ok (Some (PyInt 5))
  /\ n_clusters_passed 5 [("lines_per_cluster", PyFloat (-2))]
     = Ok (Some (PyInt 1))
  /\ n_clusters_passed 5 [("lines_per_cluster", PyFloat 0x1p-1074)]
     = Raise OverflowError
  /\ n_clusters_passed 5 [("lines_per_cluster", PyFloat (-0))]
     = Raise ZeroDivisionError.
Proof. repeat split. Qed.

(** ** The lookup adapter *)

Lemma foldM_app {S A : Type} (f : S -> A -> result S) (l1 l2 : list A) :
  forall s, foldM f (l1 ++ l2) s = (s' <- foldM f l1 s ;; foldM f l2 s').
Proof.
  induction l1 as [|x l1 IH]; simpl; intros s; trivial.
  destruct (f s x) as [s'|e]; simpl; auto.
Qed.

Section AdapterFacts.

Variable fit_predict : Kwargs -> list (list Z) -> result (list Z).
Variable list_of_set : list GlyphTuple -> list GlyphTuple.
Variable build : Pairs -> GlyphMap -> result PairPos.
Variables (ttf : TTFont) (config : Config) (lookup : Lookup).

Local Abbreviation step :=
  (compact_lookup_step fit_predict list_of_set build ttf config lookup).
Local Abbreviation ext_step :=
  (compact_ext_lookup_step fit_predict list_of_set build ttf config lookup).
Local Abbreviation subtables_of :=
  (compact_subtables fit_predict list_of_set build ttf config lookup).

(** What one subtable adds does not depend on what is there already. *)
Lemma compact_lookup_step_acc acc subtable :
  step acc subtable = (l <- step [] subtable ;; Ok (acc ++ l)).
Proof.
  unfold compact_lookup_step.
  destruct (Format_of subtable =? 1); [reflexivity|].
  destruct (Format_of subtable =? 2).
  - destruct (compact_class_subtable _ _ _ _ _ _ _) as [l|e]; reflexivity.
  - simpl. now rewrite app_nil_r.
Qed.

Lemma foldM_step_acc subtables : forall acc,
  foldM step subtables acc = (l <- subtables_of subtables ;; Ok (acc ++ l)).
Proof.
  unfold compact_subtables.
  induction subtables as [|x subtables IH]; simpl; intros acc.
  - now rewrite app_nil_r.
  - rewrite (compact_lookup_step_acc acc x).
    destruct (step [] x) as [l|e]; simpl; [|reflexivity].
    rewrite (IH (acc ++ l)), (IH l).
    destruct (foldM step subtables []) as [l'|e]; simpl; [|reflexivity].
    now rewrite app_assoc.
Qed.

Lemma compact_subtables_cons x subtables :
  subtables_of (x :: subtables)
  = (l <- step [] x ;; l' <- subtables_of subtables ;; Ok (l ++ l')).
Proof.
  unfold compact_subtables at 1. simpl.
  destruct (step [] x) as [l|e]; simpl; [|reflexivity].
  apply foldM_step_acc.
Qed.

Lemma compact_subtables_app pre post :
  subtables_of (pre ++ post)
  = (a <- subtables_of pre ;; b <- subtables_of post ;; Ok (a ++ b)).
Proof.
  unfold compact_subtables at 1 2. rewrite foldM_app.
  destruct (foldM step pre []) as [a|e]; simpl; [|reflexivity].
  apply foldM_step_acc.
Qed.

(** In a pair-adjustment lookup, a subtable of another format than 1 and
    2 adds nothing, and the count recorded is the length of the list. *)
Lemma other_format_dropped subtable pre post :
  Format_of subtable <> 1 -> Format_of subtable <> 2 ->
  subtables_of (pre ++ subtable :: post) = subtables_of (pre ++ post).
Proof.
  intros H1 H2. rewrite !compact_subtables_app, compact_subtables_cons.
  unfold compact_lookup_step.
  apply Z.eqb_neq in H1, H2. rewrite H1, H2. simpl.
  destruct (subtables_of pre) as [a|e]; simpl; [|reflexivity].
  destruct (subtables_of post) as [b|e]; reflexivity.
Qed.

Lemma compact_lookup_count lookup' :
  compact_lookup fit_predict list_of_set build ttf config lookup = Ok lookup' ->
  lookup'.(SubTableCount) = len lookup'.(SubTable).
Proof.
  unfold compact_lookup.
  destruct (compact_subtables _ _ _ _ _ _ _) as [l|e]; simpl; [|discriminate].
  now intros [= <-].
Qed.

Lemma compact_ext_lookup_count lookup' :
  compact_ext_lookup fit_predict list_of_set build ttf config lookup
    = Ok lookup' ->
  lookup'.(SubTableCount) = len lookup'.(SubTable).
Proof.
  unfold compact_ext_lookup.
  destruct (foldM _ _ _) as [st|e]; simpl; [|discriminate].
  now intros [= <-].
Qed.


End AdapterFacts.


(** C10 at the failing input.  In [compact_ext_lookup] no branch assigns
    [new_subtables] for a format that is neither 1 nor 2, and the loop that
    wraps the subtables runs all the same: after a format-1 subtable, a
    format-3 one puts a second wrapper of that format-1 subtable in the
    list; as the first subtable of the lookup, it raises
    [UnboundLocalError].  [compact_lookup] drops the same subtable. *)
Theorem ext_lookup_reuses_previous_subtables fit_predict list_of_set build
    (ttf : TTFont) (config : Config) :
  compact_ext_lookup fit_predict list_of_set build ttf config
    (extension_lookup [glyph_pair_subtable; format3_subtable])
  = Ok {| LookupType := 9;
          SubTable := [ExtensionPosT 1 None (PairPosT glyph_pair_subtable);
                       ExtensionPosT 1 None (PairPosT glyph_pair_subtable)];
          SubTableCount := 2 |}
  /\ compact_ext_lookup fit_predict list_of_set build ttf config
       (extension_lookup [format3_subtable; glyph_pair_subtable])
     = Raise (UnboundLocalError "new_subtables")
  /\ compact_lookup fit_predict list_of_set build ttf config
       (pair_lookup [glyph_pair_subtable; format3_subtable])
     = Ok (pair_lookup [glyph_pair_subtable]).
Proof. repeat split. Qed.

(** A lookup of glyph-pair subtables only is rewritten to itself. *)
Lemma glyph_pair_lookup_unchanged fit_predict list_of_set build
    (ttf : TTFont) (config : Config) (subtables : list PairPos) :
  Forall (fun p => p.(Format) = 1) subtables ->
  compact_lookup fit_predict list_of_set build ttf config
    (pair_lookup subtables) = Ok (pair_lookup subtables).
Proof.
  intros Hall. unfold compact_lookup.
  assert (Hsub : compact_subtables fit_predict list_of_set build ttf config
                   (pair_lookup subtables) (map PairPosT subtables)
                 = Ok (map PairPosT subtables)).
  { generalize (pair_lookup subtables) as lookup. intros lookup.
    induction Hall as [|p ps Hp _ IH]; [reflexivity|].
    simpl. rewrite compact_subtables_cons. unfold compact_lookup_step.
    simpl. rewrite Hp. simpl. now rewrite IH. }
  simpl. rewrite Hsub. simpl. unfold pair_lookup, len.
  now rewrite length_map.
Qed.

(** ** An unknown mode *)

Lemma foldM_mode_blind {S A : Type} (f f' : S -> A -> result S) (e0 : exn)
    (Hf : forall s x, f s x <> Raise e0 -> f' s x = f s x) (l : list A) :
  forall s, foldM f l s <> Raise e0 -> foldM f' l s = foldM f l s.
Proof.
  induction l as [|x l IH]; simpl; intros s Hne; [reflexivity|].
  destruct (f s x) as [s'|e] eqn:Hfs.
  - rewrite (Hf s x) by (rewrite Hfs; discriminate). rewrite Hfs.
    simpl in *. now apply IH.
  - rewrite (Hf s x) by (now rewrite Hfs). now rewrite Hfs.
Qed.

Section UnknownMode.

Variable fit_predict : Kwargs -> list (list Z) -> result (list Z).
Variable list_of_set : list GlyphTuple -> list GlyphTuple.
Variable build : Pairs -> GlyphMap -> result PairPos.
Variables (ttf : TTFont) (m : string) (kwargs : Kwargs).
Hypothesis Hmode : ~ In m known_modes.

Lemma unknown_mode_class_pairs (B : Type)
    (builder : Pairs -> GlyphMap -> result B) lookup subtable :
  compact_class_pairs fit_predict list_of_set builder ttf
    (mode_config m kwargs) lookup subtable
  = Raise (ValueError "Bad config").
Proof.
  unfold compact_class_pairs. simpl.
  destruct (string_dec m "one") as [->|_];
    [exfalso; apply Hmode; simpl; tauto|].
  destruct (string_dec m "max") as [->|_];
    [exfalso; apply Hmode; simpl; tauto|].
  destruct (string_dec m "auto") as [->|_];
    [exfalso; apply Hmode; simpl; tauto|].
  reflexivity.
Qed.

Lemma unknown_mode_class_subtable lookup p :
  compact_class_subtable fit_predict list_of_set build ttf
    (mode_config m kwargs) lookup (PairPosT p)
  = Raise (ValueError "Bad config").
Proof.
  unfold compact_class_subtable. simpl.
  now rewrite unknown_mode_class_pairs.
Qed.

Lemma unknown_mode_dispatch lookup p :
  comes_to_class_subtable fit_predict list_of_set build ttf
    (mode_config m kwargs) lookup p ->
  compact_dispatch fit_predict list_of_set build ttf (mode_config m kwargs)
    lookup
  = Raise (ValueError "Bad config").
Proof.
  intros (Hfmt & done & rest
          & [(Htype & Hsub & new_subtables & Hdone)
            |(Htype & (first & others & Hfirst & Hext) & (f & t & Hsub)
              & st & Hdone)]);
    unfold compact_dispatch; rewrite Htype; simpl.
  - unfold compact_lookup. rewrite Hsub, compact_subtables_app, Hdone.
    simpl. rewrite compact_subtables_cons. unfold compact_lookup_step.
    simpl. rewrite Hfmt. simpl.
    now rewrite unknown_mode_class_subtable.
  - rewrite Hfirst, Hext. simpl.
    unfold compact_ext_lookup. rewrite Hsub, foldM_app, Hdone.
    cbn [bind foldM]. unfold compact_ext_lookup_step. destruct st as [l o].
    simpl. rewrite Hfmt. simpl.
    now rewrite unknown_mode_class_subtable.
Qed.

(** Where the error of the mode does not arise, the mode and the libraries
    play no part. *)
Section ModeBlind.

Variable fit_predict' : Kwargs -> list (list Z) -> result (list Z).
Variable list_of_set' : list GlyphTuple -> list GlyphTuple.
Variable build' : Pairs -> GlyphMap -> result PairPos.
Variable config' : Config.

Lemma step_mode_blind lookup acc subtable :
  compact_lookup_step fit_predict list_of_set build ttf
    (mode_config m kwargs) lookup acc subtable
  <> Raise (ValueError "Bad config") ->
  compact_lookup_step fit_predict' list_of_set' build' ttf config' lookup
    acc subtable
  = compact_lookup_step fit_predict list_of_set build ttf
      (mode_config m kwargs) lookup acc subtable.
Proof.
  unfold compact_lookup_step.
  destruct (Format_of subtable =? 1); [reflexivity|].
  destruct (Format_of subtable =? 2); [|reflexivity].
  destruct subtable as [p|f t inner|f]; try reflexivity.
  rewrite unknown_mode_class_subtable. simpl. intros Hne. now contradiction Hne.
Qed.

Lemma ext_step_mode_blind lookup st ext_subtable :
  compact_ext_lookup_step fit_predict list_of_set build ttf
    (mode_config m kwargs) lookup st ext_subtable
  <> Raise (ValueError "Bad config") ->
  compact_ext_lookup_step fit_predict' list_of_set' build' ttf config' lookup
    st ext_subtable
  = compact_ext_lookup_step fit_predict list_of_set build ttf
      (mode_config m kwargs) lookup st ext_subtable.
Proof.
  unfold compact_ext_lookup_step. destruct st as [new_ext_subtables o].
  destruct (ExtSubTable_of ext_subtable) as [subtable|e]; simpl;
    [|reflexivity].
  destruct (Format_of subtable =? 1); [reflexivity|].
  destruct (Format_of subtable =? 2); [|reflexivity].
  destruct subtable as [p|f t inner|f]; try reflexivity.
  rewrite unknown_mode_class_subtable. simpl. intros Hne. now contradiction Hne.
Qed.

Lemma dispatch_mode_blind lookup :
  compact_dispatch fit_predict list_of_set build ttf (mode_config m kwargs)
    lookup
  <> Raise (ValueError "Bad config") ->
  compact_dispatch fit_predict' list_of_set' build' ttf config' lookup
  = compact_dispatch fit_predict list_of_set build ttf (mode_config m kwargs)
      lookup.
Proof.
  unfold compact_dispatch.
  destruct (LookupType lookup =? 2).
  - unfold compact_lookup, compact_subtables. intros Hne.
    rewrite (foldM_mode_blind _ _ _ (step_mode_blind lookup));
      [reflexivity|].
    intros Heq. apply Hne. now rewrite Heq.
  - destruct (LookupType lookup =? 9); [|reflexivity].
    destruct (match SubTable lookup with
              | [] => Raise IndexError
              | first :: _ => ExtensionLookupType_of first
              end) as [t|e]; simpl; [|reflexivity].
    destruct (t =? 2); [|reflexivity].
    unfold compact_ext_lookup. intros Hne.
    rewrite (foldM_mode_blind _ _ _ (ext_step_mode_blind lookup));
      [reflexivity|].
    intros Heq. apply Hne. now rewrite Heq.
Qed.

Lemma lookups_mode_blind lookups :
  snd (compact_lookups fit_predict list_of_set build ttf
         (mode_config m kwargs) lookups)
  <> Some (ValueError "Bad config") ->
  compact_lookups fit_predict' list_of_set' build' ttf config' lookups
  = compact_lookups fit_predict list_of_set build ttf (mode_config m kwargs)
      lookups.
Proof.
  induction lookups as [|lookup lookups IH]; simpl; [reflexivity|].
  destruct (compact_dispatch fit_predict list_of_set build ttf
              (mode_config m kwargs) lookup) as [lookup'|e] eqn:Hd.
  - rewrite dispatch_mode_blind by (rewrite Hd; discriminate). rewrite Hd.
    destruct (compact_lookups fit_predict list_of_set build ttf
                (mode_config m kwargs) lookups) as [rest' e].
    simpl in *. intros Hne. now rewrite (IH Hne).
  - simpl. intros Hne.
    rewrite dispatch_mode_blind by (rewrite Hd; congruence).
    now rewrite Hd.
Qed.

End ModeBlind.

Lemma compact_lookups_app config pre : forall rest,
  compact_lookups fit_predict list_of_set build ttf config (pre ++ rest)
  = match compact_lookups fit_predict list_of_set build ttf config pre with
    | (pre', None) =>
        let '(rest', e) :=
          compact_lookups fit_predict list_of_set build ttf config rest in
        (pre' ++ rest', e)
    | (pre', Some e) => (pre' ++ rest, Some e)
    end.
Proof.
  induction pre as [|lookup pre IH]; intros rest; simpl.
  - now destruct (compact_lookups _ _ _ _ _ rest).
  - destruct (compact_dispatch _ _ _ _ _ lookup) as [lookup'|e]; simpl;
      [|reflexivity].
    rewrite IH.
    destruct (compact_lookups _ _ _ _ _ pre) as [pre' [e|]]; simpl;
      [reflexivity|].
    now destruct (compact_lookups _ _ _ _ _ rest).
Qed.

(** C7, as the code has it.  The mode is looked at in one place, the end
    of [compact_class_pairs]: with a mode that is none of "one", "max"
    and "auto", every class-based subtable raises [ValueError], whatever
    the builder, and no strategy is run in its stead.  [compact] lets the
    exception through when it comes to the first class-based subtable, in
    a pair-adjustment lookup or in an extension lookup; that lookup and
    those after it are left as they were, the lookups before it have been
    rewritten.  And when [compact] does not end in this error, the mode
    has played no part: it ends in the same way, with the same table,
    under every mode, clustering and builder. *)
Theorem unknown_mode_raises :
  (forall (B : Type) (builder : Pairs -> GlyphMap -> result B)
          lookup subtable,
      compact_class_pairs fit_predict list_of_set builder ttf
        (mode_config m kwargs) lookup subtable
      = Raise (ValueError "Bad config"))
  /\ (forall before before' lookup after p,
        ttf.(GPOS) = Some (before ++ lookup :: after) ->
        compact_lookups fit_predict list_of_set build ttf
          (mode_config m kwargs) before = (before', None) ->
        comes_to_class_subtable fit_predict list_of_set build ttf
          (mode_config m kwargs) lookup p ->
        compact fit_predict list_of_set build ttf m kwargs
        = ({| GPOS := Some (before' ++ lookup :: after);
              getReverseGlyphMap := ttf.(getReverseGlyphMap) |},
           Some (ValueError "Bad config")))
  /\ (snd (compact fit_predict list_of_set build ttf m kwargs)
      <> Some (ValueError "Bad config") ->
      forall fit_predict' list_of_set' build' m' kwargs',
        compact fit_predict' list_of_set' build' ttf m' kwargs'
        = compact fit_predict list_of_set build ttf m kwargs).
Proof.
  split; [exact unknown_mode_class_pairs|split].
  - intros before before' lookup after p Hgpos Hbefore Hclass.
    unfold compact. rewrite Hgpos.
    fold (mode_config m kwargs).
    rewrite compact_lookups_app, Hbefore. simpl.
    now rewrite (unknown_mode_dispatch lookup p Hclass).
  - unfold compact. fold (mode_config m kwargs).
    destruct (GPOS ttf) as [lookups|]; [|reflexivity].
    intros Hne fit_predict' list_of_set' build' m' kwargs'.
    rewrite (lookups_mode_blind fit_predict' list_of_set' build'
               {| mode := m'; clustering_kwargs := kwargs' |} lookups);
      [reflexivity|].
    destruct (compact_lookups fit_predict list_of_set build ttf
                (mode_config m kwargs) lookups) as [lookups' e].
    exact Hne.
Qed.

End UnknownMode.

(** With an unknown mode, a font whose only lookup holds a glyph-pair
    subtable is compacted without any exception; and when a class-based
    subtable comes in the second lookup, the exception finds the first
    lookup rewritten already (its format-3 subtable is gone). *)
Lemma unknown_mode_unnoticed :
  ~ In "bogus" known_modes
  /\ ~ (exists e,
          snd (compact two_rows_needed dedup example_builder
                 (font_of [pair_lookup [glyph_pair_subtable]]) "bogus" [])
          = Some e)
  /\ compact two_rows_needed dedup example_builder
       (font_of [pair_lookup [glyph_pair_subtable; format3_subtable];
                 pair_lookup [zero_subtable]])
       "bogus" []
     = (font_of [pair_lookup [glyph_pair_subtable];
                 pair_lookup [zero_subtable]],
        Some (ValueError "Bad config")).
Proof.
  split; [|split].
  - simpl. intros [H|[H|[H|[]]]]; discriminate.
  - intros [e He]. vm_compute in He. discriminate.
  - reflexivity.
Qed.

Lemma bogus_unknown : ~ In "bogus" known_modes.
Proof. simpl. intros [H|[H|[H|[]]]]; discriminate. Qed.

(** In the extension lookup of [glyph_pair_subtable] and [zero_subtable],
    the loop comes to the second after the first. *)
Lemma extension_lookup_comes_to_class_subtable :
  comes_to_class_subtable two_rows_needed dedup example_builder
    (font_of [pair_lookup [glyph_pair_subtable; format3_subtable];
              extension_lookup [glyph_pair_subtable; zero_subtable]])
    (mode_config "bogus" [])
    (extension_lookup [glyph_pair_subtable; zero_subtable]) zero_subtable.
Proof.
  split; [reflexivity|].
  exists [ExtensionPosT 1 (Some 2) (PairPosT glyph_pair_subtable)], [].
  right. split; [reflexivity|split; [|split]].
  - now exists (ExtensionPosT 1 (Some 2) (PairPosT glyph_pair_subtable)),
               [ExtensionPosT 1 (Some 2) (PairPosT zero_subtable)].
  - now exists 1, (Some 2).
  - now exists ([ExtensionPosT 1 None (PairPosT glyph_pair_subtable)],
                Some [PairPosT glyph_pair_subtable]).
Qed.

(** An unknown mode on two fonts.  In the first the error comes in the
    second lookup, an extension lookup, at its second subtable.  The second
    ends in the [IndexError] of an empty extension lookup, as it does under
    "max" with another clustering. *)
Lemma unknown_mode_raises_witness :
  compact two_rows_needed dedup example_builder
    (font_of [pair_lookup [glyph_pair_subtable; format3_subtable];
              extension_lookup [glyph_pair_subtable; zero_subtable]])
    "bogus" []
  = (font_of [pair_lookup [glyph_pair_subtable];
              extension_lookup [glyph_pair_subtable; zero_subtable]],
     Some (ValueError "Bad config"))
  /\ compact single_cluster dedup example_builder
       (font_of [pair_lookup [glyph_pair_subtable; format3_subtable];
                 extension_lookup []])
       "max" []
     = compact two_rows_needed dedup example_builder
         (font_of [pair_lookup [glyph_pair_subtable; format3_subtable];
                   extension_lookup []])
         "bogus" [].
Proof.
  split.
  - exact (proj1 (proj2
      (unknown_mode_raises two_rows_needed dedup example_builder
         (font_of [pair_lookup [glyph_pair_subtable; format3_subtable];
                   extension_lookup [glyph_pair_subtable; zero_subtable]])
         "bogus" [] bogus_unknown))
      [pair_lookup [glyph_pair_subtable; format3_subtable]]
      [pair_lookup [glyph_pair_subtable]]
      (extension_lookup [glyph_pair_subtable; zero_subtable]) []
      zero_subtable eq_refl eq_refl
      extension_lookup_comes_to_class_subtable).
  - apply (proj2 (proj2
      (unknown_mode_raises two_rows_needed dedup example_builder
         (font_of [pair_lookup [glyph_pair_subtable; format3_subtable];
                   extension_lookup []])
         "bogus" [] bogus_unknown))).
    vm_compute. discriminate.
Defined.

(** ** The example of the specification *)

Lemma regrouping_conserves_pairs_witness :
  regroups spec_example_groups (extract_pairs spec_example_subtable).(all_pairs).
Proof.
  apply (proj2
    (regrouping_conserves_pairs single_cluster dedup dedup_enumerates
       single_cluster_labels (font_of []) "max" []
       (pair_lookup [spec_example_subtable]) spec_example_subtable
       (or_intror (or_introl eq_refl)))).
  reflexivity.
Defined.

Example spec_example_max :
  subtable_groups single_cluster dedup (font_of []) (mode_config "max" [])
    (pair_lookup [spec_example_subtable]) spec_example_subtable
  = Ok spec_example_groups.
Proof. reflexivity. Qed.

Example spec_example_one :
  subtable_groups single_cluster dedup (font_of []) (mode_config "one" [])
    (pair_lookup [spec_example_subtable]) spec_example_subtable
  = Ok [List.concat spec_example_groups].
Proof. reflexivity. Qed.

Example spec_example_auto_outlier :
  subtable_groups (fun _ _ => Ok [-1; 7]) dedup (font_of [])
    (mode_config "auto" [])
    (pair_lookup [spec_example_subtable]) spec_example_subtable
  = Ok [ [ (["c"], ["x"], (Some (advance 30), None)) ];
         [ (["a"; "b"], ["x"], (Some (advance 10), None));
           (["a"; "b"], ["y"], (Some (advance 20), None)) ] ].
Proof. reflexivity. Qed.

(** * Further properties *)

(** ** More facts about dictionaries *)

Section DictMembership.
Context {K V : Type} `{EqDec K}.
Implicit Types (d : dict K V) (k : K) (v : V).

Lemma set_not_nil d k v : Dict.set d k v <> [].
Proof.
  destruct d as [|[k' v'] d]; simpl; [discriminate|].
  destruct (eq_dec k k'); discriminate.
Qed.

Lemma In_set_inv d k v kv :
  In kv (Dict.set d k v) -> kv = (k, v) \/ In kv d.
Proof.
  induction d as [|[k' v'] d IH]; simpl.
  - intros [<-|[]]. now left.
  - destruct (eq_dec k k') as [->|Hne]; simpl.
    + intros [<-|Hin]; auto.
    + intros [<-|Hin]; auto. destruct (IH Hin); auto.
Qed.

Lemma In_set_same d k v : In (k, v) (Dict.set d k v).
Proof.
  induction d as [|[k' v'] d IH]; simpl.
  - now left.
  - destruct (eq_dec k k') as [->|Hne]; simpl; auto.
Qed.

Lemma In_set_other d k v kv :
  fst kv <> k -> In kv d -> In kv (Dict.set d k v).
Proof.
  intros Hne. induction d as [|[k' v'] d IH]; simpl; [tauto|].
  destruct (eq_dec k k') as [->|Hne']; simpl.
  - intros [<-|Hin]; auto. simpl in Hne. congruence.
  - intros [<-|Hin]; auto.
Qed.

Lemma set_set_same d k v v' :
  Dict.set (Dict.set d k v) k v' = Dict.set d k v'.
Proof.
  induction d as [|[k' w] d IH]; simpl.
  - destruct (eq_dec k k); congruence.
  - destruct (eq_dec k k') as [->|Hne]; simpl.
    + destruct (eq_dec k' k'); congruence.
    + destruct (eq_dec k k'); [congruence|]. now rewrite IH.
Qed.

(** Reading a [defaultdict]: the value read is stored under the key
    afterwards, and nothing that was stored is lost. *)
Lemma getitem_default_spec d k default v d' :
  Dict.getitem_default d k default = (v, d') ->
  In (k, v) d'
  /\ (forall kv, In kv d -> In kv d')
  /\ (forall kv, In kv d' -> In kv d \/ kv = (k, default)).
Proof.
  unfold Dict.getitem_default.
  destruct (Dict.get d k) as [v0|] eqn:Hg; intros [= <- <-].
  - split; [now apply get_Some_In | split; auto].
  - apply get_None_notin in Hg. rewrite set_fresh by assumption.
    split; [apply in_or_app; right; now left | split].
    + intros kv Hin. apply in_or_app. now left.
    + intros kv Hin. apply in_app_or in Hin.
      destruct Hin as [Hin|[<-|[]]]; auto.
Qed.

End DictMembership.

(** ** What the extraction keeps *)

Lemma extract_cell_zero i st j cell :
  cell_is_zero cell = true -> extract_cell i st (j, cell) = st.
Proof.
  unfold extract_cell, cell_is_zero. now intros ->.
Qed.

Lemma extract_cell_nonzero i st j cell :
  cell_is_zero cell = false ->
  exists c1 c2,
    (extract_cell i st (j, cell)).(all_pairs)
    = Dict.set st.(all_pairs) (c1, c2) (cell.(Value1), cell.(Value2))
    /\ In (i, c1) (extract_cell i st (j, cell)).(classes1)
    /\ In (j, c2) (extract_cell i st (j, cell)).(classes2).
Proof.
  unfold extract_cell, cell_is_zero. intros ->.
  destruct (Dict.getitem_default (classes1 st) i []) as [c1 cl1] eqn:H1.
  destruct (Dict.getitem_default (classes2 st) j []) as [c2 cl2] eqn:H2.
  exists c1, c2. simpl.
  split; [reflexivity|].
  split; [exact (proj1 (getitem_default_spec _ _ _ _ _ H1))
         | exact (proj1 (getitem_default_spec _ _ _ _ _ H2))].
Qed.

(** An invariant of the matrix loop is an invariant of the extraction. *)
Lemma extract_pairs_invariant (P : Extracted -> Prop) subtable :
  (forall i st jc, P st -> P (extract_cell i st jc)) ->
  P {| classes1 := build_classes1 subtable;
       classes2 := build_classes2 subtable;
       all_pairs := [] |} ->
  P (extract_pairs subtable).
Proof.
  intros Hstep Hinit. unfold extract_pairs.
  apply (fold_left_preserves P); trivial.
  intros st [i class1] Hst. unfold extract_row.
  apply (fold_left_preserves P); trivial.
  intros. now apply Hstep.
Qed.

(** X1. Every entry of the extracted pair matrix comes from a cell that the
    zero test let through: its two values are not both zero for
    [is_really_zero]. *)
Theorem extracted_values_pass_filter (subtable : PairPos)
    (key : PairKey) (v1 v2 : option ValueRecord) :
  In (key, (v1, v2)) (extract_pairs subtable).(all_pairs) ->
  is_really_zero v1 && is_really_zero v2 = false.
Proof.
  revert key v1 v2.
  apply (extract_pairs_invariant
           (fun st => forall key v1 v2,
                In (key, (v1, v2)) st.(all_pairs) ->
                is_really_zero v1 && is_really_zero v2 = false)).
  - intros i st [j cell] Hst key v1 v2.
    destruct (cell_is_zero cell) eqn:Hz.
    + rewrite extract_cell_zero by assumption. apply Hst.
    + destruct (extract_cell_nonzero i st j cell Hz) as (c1 & c2 & -> & _).
      intros Hin. apply In_set_inv in Hin.
      destruct Hin as [[= _ -> ->]|Hin]; [exact Hz | now apply (Hst key)].
  - simpl. intros key v1 v2 [].
Qed.

Lemma extracted_values_pass_filter_witness :
  is_really_zero (Some (advance 30)) && is_really_zero None = false.
Proof.
  apply (extracted_values_pass_filter spec_example_subtable (["c"], ["x"])).
  vm_compute. tauto.
Defined.

Lemma extract_cells_empty i cells : forall j st,
  (fold_left (extract_cell i) (enumerate_from j cells) st).(all_pairs) = []
  <-> st.(all_pairs) = [] /\ forallb cell_is_zero cells = true.
Proof.
  induction cells as [|cell cells IH];
    cbn [fold_left enumerate_from forallb]; intros j st.
  - tauto.
  - rewrite IH. destruct (cell_is_zero cell) eqn:Hz.
    + rewrite extract_cell_zero by assumption. simpl. tauto.
    + destruct (extract_cell_nonzero i st j cell Hz) as (c1 & c2 & -> & _).
      simpl. split.
      * intros [Hnil _]. now apply set_not_nil in Hnil.
      * intros [_ Hf]. discriminate.
Qed.

Lemma extract_rows_empty rows : forall i st,
  (fold_left extract_row (enumerate_from i rows) st).(all_pairs) = []
  <-> st.(all_pairs) = []
      /\ forallb cell_is_zero (flat_map Class2Record rows) = true.
Proof.
  induction rows as [|row rows IH];
    cbn [fold_left enumerate_from flat_map]; intros i st.
  - simpl. tauto.
  - rewrite IH. unfold extract_row, enumerate.
    rewrite extract_cells_empty, forallb_app.
    rewrite andb_true_iff. tauto.
Qed.

(** X2. The extracted pair matrix is empty exactly when every cell of the
    value matrix passes the zero test (a subtable without rows or without
    cells included). *)
Theorem extracted_matrix_empty_iff (subtable : PairPos) :
  (extract_pairs subtable).(all_pairs) = []
  <-> forallb cell_is_zero (all_cells subtable) = true.
Proof.
  unfold extract_pairs, enumerate, all_cells.
  rewrite extract_rows_empty. simpl. tauto.
Qed.

(** ** Grouping by key *)

Section Grouping.
Context {K : Type} `{EqDec K}.

Lemma same_true (a b : K) : same a b = true <-> a = b.
Proof. unfold same. destruct (eq_dec a b); split; congruence. Qed.

Lemma same_false (a b : K) : same a b = false <-> a <> b.
Proof. unfold same. destruct (eq_dec a b); split; congruence. Qed.

Lemma same_refl (a : K) : same a a = true.
Proof. now apply same_true. Qed.

Lemma in_first_occurrences (l : list K) x :
  In x (first_occurrences l) <-> In x l.
Proof.
  induction l as [|a l IH]; simpl; [tauto|].
  rewrite filter_In, IH, negb_true_iff, same_false.
  destruct (eq_dec a x) as [->|Hne]; [tauto|].
  split; [tauto|]. intros [?|?]; [tauto|]. right. split; congruence.
Qed.

Lemma NoDup_first_occurrences (l : list K) : NoDup (first_occurrences l).
Proof.
  induction l as [|a l IH]; simpl; constructor.
  - rewrite filter_In, negb_true_iff, same_false. tauto.
  - now apply NoDup_filter.
Qed.

Lemma first_occurrences_snoc (l : list K) x :
  first_occurrences (l ++ [x])
  = if in_dec eq_dec x l then first_occurrences l
    else first_occurrences l ++ [x].
Proof.
  induction l as [|a l IH]; simpl; [reflexivity|].
  rewrite IH. destruct (in_dec eq_dec x l) as [Hl|Hl].
  - destruct (eq_dec a x); reflexivity.
  - rewrite filter_app. simpl. destruct (eq_dec a x) as [->|Hne].
    + rewrite same_refl. simpl. now rewrite app_nil_r.
    + assert (Hx : same x a = false) by (apply same_false; congruence).
      rewrite Hx. reflexivity.
Qed.

Lemma first_occurrences_snoc_in (l : list K) x :
  In x l -> first_occurrences (l ++ [x]) = first_occurrences l.
Proof.
  intros Hin. rewrite first_occurrences_snoc.
  now destruct (in_dec eq_dec x l).
Qed.

Lemma first_occurrences_snoc_new (l : list K) x :
  ~ In x l -> first_occurrences (l ++ [x]) = first_occurrences l ++ [x].
Proof.
  intros Hin. rewrite first_occurrences_snoc.
  now destruct (in_dec eq_dec x l).
Qed.

(** A dictionary given by its keys and a function of the key. *)
Lemma get_tabulated {V : Type} (f : K -> V) (keys : list K) r :
  Dict.get (map (fun r => (r, f r)) keys) r
  = if in_dec eq_dec r keys then Some (f r) else None.
Proof.
  induction keys as [|a keys IH]; simpl; [reflexivity|].
  destruct (eq_dec r a) as [->|Hne].
  - now destruct (eq_dec a a).
  - rewrite IH. destruct (eq_dec a r); [congruence|].
    now destruct (in_dec eq_dec r keys).
Qed.

Lemma set_tabulated {V : Type} (f : K -> V) (keys : list K) r v :
  NoDup keys -> In r keys ->
  Dict.set (map (fun r => (r, f r)) keys) r v
  = map (fun r' => (r', if same r' r then v else f r')) keys.
Proof.
  induction keys as [|a keys IH]; simpl; [tauto|].
  intros Hnd Hin. inversion Hnd as [|? ? Hnotin Hnd']; subst.
  destruct (eq_dec r a) as [->|Hne].
  - rewrite same_refl. f_equal. apply map_ext_in. intros r' Hr'.
    assert (Hs : same r' a = false) by (apply same_false; congruence).
    now rewrite Hs.
  - assert (Hs : same a r = false) by (apply same_false; congruence).
    rewrite Hs. f_equal. apply IH; trivial.
    destruct Hin; [congruence | assumption].
Qed.

Section Grouped.
Context {A E : Type} (key : A -> K) (elt : A -> E).

Lemma keys_grouped (xs : list A) :
  Dict.keys (grouped key elt xs) = first_occurrences (map key xs).
Proof.
  unfold grouped, Dict.keys. rewrite map_map. simpl. apply map_id.
Qed.

Lemma filter_key_absent (xs : list A) r :
  ~ In r (map key xs) -> filter (fun x => same (key x) r) xs = [].
Proof.
  intros Hn. induction xs as [|x xs IH]; simpl; [reflexivity|].
  simpl in Hn. assert (Hs : same (key x) r = false)
    by (apply same_false; tauto).
  rewrite Hs. apply IH. tauto.
Qed.

(** Putting one more item in: its element goes to the end of the list of
    its key. *)
Lemma grouped_snoc (xs : list A) (x : A) :
  grouped key elt (xs ++ [x])
  = Dict.set (grouped key elt xs) (key x)
      (Dict.get_or (grouped key elt xs) (key x) [] ++ [elt x]).
Proof.
  unfold Dict.get_or. unfold grouped at 3. rewrite get_tabulated.
  unfold grouped. rewrite map_app. simpl.
  destruct (in_dec eq_dec (key x) (first_occurrences (map key xs)))
    as [Hin|Hn].
  - rewrite first_occurrences_snoc_in by (now apply in_first_occurrences).
    rewrite set_tabulated; trivial; [|apply NoDup_first_occurrences].
    apply map_ext. intros r. f_equal.
    rewrite filter_app, map_app. simpl.
    destruct (same r (key x)) eqn:Hr.
    + apply same_true in Hr. subst r. now rewrite same_refl.
    + apply same_false in Hr.
      assert (Hs : same (key x) r = false) by (apply same_false; congruence).
      rewrite Hs. simpl. now rewrite app_nil_r.
  - rewrite in_first_occurrences in Hn.
    rewrite first_occurrences_snoc_new by assumption.
    rewrite map_app. simpl.
    rewrite set_fresh.
    + f_equal.
      * apply map_ext_in. intros r Hr. f_equal.
        rewrite filter_app, map_app. simpl.
        apply (proj1 (in_first_occurrences _ _)) in Hr.
        assert (Hs : same (key x) r = false)
          by (apply same_false; intros Heq; apply Hn; now rewrite Heq).
        rewrite Hs. simpl. now rewrite app_nil_r.
      * rewrite filter_app, filter_key_absent by assumption.
        simpl. now rewrite same_refl.
    + unfold Dict.keys. rewrite map_map. simpl. rewrite map_id.
      now rewrite in_first_occurrences.
Qed.

(** The loop that appends to the list of the key builds [grouped]. *)
Lemma fold_grouped (step : dict K (list E) -> A -> dict K (list E))
    (ok : list A -> A -> Prop) :
  (forall done x, ok done x ->
     step (grouped key elt done) x
     = Dict.set (grouped key elt done) (key x)
         (Dict.get_or (grouped key elt done) (key x) [] ++ [elt x])) ->
  forall todo done,
    (forall before x after, todo = before ++ x :: after ->
       ok (done ++ before) x) ->
    fold_left step todo (grouped key elt done) = grouped key elt (done ++ todo).
Proof.
  intros Hstep. induction todo as [|x todo IH]; simpl; intros done Hok.
  - now rewrite app_nil_r.
  - rewrite Hstep by (rewrite <- (app_nil_r done); apply (Hok [] x todo eq_refl)).
    rewrite <- grouped_snoc.
    replace (done ++ x :: todo) with ((done ++ [x]) ++ todo)
      by (now rewrite <- app_assoc).
    apply IH. intros before y after ->.
    rewrite <- app_assoc. simpl.
    now apply (Hok (x :: before) y after).
Qed.

End Grouped.

End Grouping.
(** ** The class lists *)

Lemma append_to_class_set classes i g :
  append_to_class classes i g
  = Dict.set classes i (Dict.get_or classes i [] ++ [g]).
Proof.
  unfold append_to_class, Dict.getitem_default, Dict.get_or.
  destruct (Dict.get classes i) as [l|]; [reflexivity|].
  apply set_set_same.
Qed.

Lemma build_classes1_grouped (subtable : PairPos) :
  build_classes1 subtable
  = grouped (class1_id subtable) (fun g => g) subtable.(Coverage).(glyphs).
Proof.
  unfold build_classes1.
  apply (fold_grouped (class1_id subtable) (fun g => g)
           (fun classes1 g => append_to_class classes1 (class1_id subtable g) g)
           (fun _ _ => True)
           (fun done g _ => append_to_class_set _ _ _)
           subtable.(Coverage).(glyphs) []).
  trivial.
Qed.

Lemma build_classes2_grouped (subtable : PairPos) :
  build_classes2 subtable
  = grouped snd fst subtable.(ClassDef2).(classDefs).
Proof.
  unfold build_classes2.
  apply (fold_grouped snd fst
           (fun classes2 (gi : Glyph * Z) =>
              append_to_class classes2 (snd gi) (fst gi))
           (fun _ _ => True)
           (fun done gi _ => append_to_class_set _ _ _)
           subtable.(ClassDef2).(classDefs) []).
  trivial.
Qed.

Lemma get_or_grouped {A K E : Type} `{EqDec K} (key : A -> K) (elt : A -> E)
    (xs : list A) (r : K) :
  Dict.get_or (grouped key elt xs) r []
  = map elt (filter (fun x => same (key x) r) xs).
Proof.
  unfold Dict.get_or, grouped. rewrite get_tabulated.
  destruct (in_dec eq_dec r (first_occurrences (map key xs))) as [Hin|Hn];
    [reflexivity|].
  rewrite in_first_occurrences in Hn.
  now rewrite (filter_key_absent key elt xs r Hn).
Qed.

(** X3. [classes1] as the first loop leaves it: one entry for each class
    id that a covered glyph has, in the order in which the ids first come
    up in the coverage, holding the covered glyphs of the class in coverage
    order; a glyph that [ClassDef1] does not list counts for class 0.  A
    class id without covered glyph has no entry. *)
Theorem classes1_lists_coverage_by_class (subtable : PairPos) :
  build_classes1 subtable
  = map (fun i => (i, class1_glyphs subtable i))
        (first_occurrences
           (map (class1_id subtable) subtable.(Coverage).(glyphs)))
  /\ forall i,
       Dict.get (build_classes1 subtable) i
       = match class1_glyphs subtable i with
         | [] => None
         | l => Some l
         end.
Proof.
  rewrite build_classes1_grouped. unfold grouped, class1_glyphs.
  split.
  - apply map_ext. intros i. now rewrite map_id.
  - intros i. rewrite get_tabulated. rewrite map_id.
    destruct (in_dec eq_dec i _) as [Hin|Hn].
    + apply (proj1 (in_first_occurrences _ _)) in Hin.
      apply in_map_iff in Hin. destruct Hin as (g & Hg & Hin).
      destruct (filter _ _) as [|g' l] eqn:Hf; [|reflexivity].
      exfalso. assert (Hg' : In g (filter (fun g0 => same (class1_id subtable g0) i)
                                     (glyphs (Coverage subtable)))).
      { apply filter_In. split; trivial. now apply same_true. }
      rewrite Hf in Hg'. destruct Hg'.
    + rewrite in_first_occurrences in Hn.
      now rewrite (filter_key_absent _ (fun g : Glyph => g) _ _ Hn).
Qed.

(** X4. [classes2] as the second loop leaves it: one entry for each class
    id that [ClassDef2] gives to a glyph, in the order in which the ids
    first come up, holding the glyphs of the class in the order of the
    definition.  A class id that [ClassDef2] gives to no glyph has no entry:
    its list is empty. *)
Theorem classes2_lists_classdef_by_class (subtable : PairPos) :
  build_classes2 subtable
  = map (fun j => (j, class2_glyphs subtable j))
        (first_occurrences (map snd subtable.(ClassDef2).(classDefs)))
  /\ forall j,
       Dict.get_or (build_classes2 subtable) j [] = class2_glyphs subtable j.
Proof.
  rewrite build_classes2_grouped. split; [reflexivity|].
  intros j. apply get_or_grouped.
Qed.

(** ** The lines of the matrix, in order *)

Lemma add_to_line_set (done : Pairs) (item : PairKey * ValuePair) :
  ~ In (fst item) (Dict.keys done) ->
  add_to_line (grouped class1_of (fun x => x) done) item
  = Dict.set (grouped class1_of (fun x => x) done) (class1_of item)
      (Dict.get_or (grouped class1_of (fun x => x) done) (class1_of item) []
         ++ [item]).
Proof.
  intros Hfresh. destruct item as [pr v].
  change (class1_of (pr, v)) with (fst pr).
  unfold add_to_line, Dict.getitem_default, Dict.get_or.
  simpl fst in *.
  destruct (Dict.get _ (fst pr)) as [line|] eqn:Hg.
  - f_equal. apply set_fresh. intros Hin. apply Hfresh.
    pose proof (get_or_grouped class1_of (fun x => x) done (fst pr)) as Hline.
    unfold Dict.get_or in Hline. unfold Pairs, dict in *.
    rewrite Hg, map_id in Hline. subst line.
    unfold Dict.keys in *. apply in_map_iff in Hin.
    destruct Hin as (x & Hx & Hin). apply filter_In in Hin.
    apply in_map_iff. exists x. tauto.
  - simpl. apply set_set_same.
Qed.

Lemma group_by_class1_grouped (pairs : Pairs) :
  NoDup (Dict.keys pairs) ->
  group_by_class1 pairs = grouped class1_of (fun x => x) pairs.
Proof.
  intros Hnd. unfold group_by_class1.
  apply (fold_grouped class1_of (fun x => x) add_to_line
           (fun done item => ~ In (fst item) (Dict.keys done))
           add_to_line_set pairs []).
  intros before x after ->. simpl.
  unfold Dict.keys in Hnd. rewrite map_app in Hnd. simpl in Hnd.
  apply NoDup_remove_2 in Hnd. intros Hin. apply Hnd.
  apply in_or_app. now left.
Qed.

(** X5. The groups of "max", in order: one group for each class1 key in
    the order in which the keys first come up in the pair matrix, holding
    the entries of that key in the order of the matrix. *)
Theorem max_groups_in_matrix_order fit_predict list_of_set
    (ttf : TTFont) (kwargs : Kwargs) (lookup : Lookup) (subtable : PairPos) :
  let pairs := (extract_pairs subtable).(all_pairs) in
  subtable_groups fit_predict list_of_set ttf (mode_config "max" kwargs)
    lookup subtable
  = Ok (map (fun r => filter (fun item => same (class1_of item) r) pairs)
            (first_occurrences (map class1_of pairs))).
Proof.
  intros pairs. unfold subtable_groups, compact_class_pairs. simpl.
  rewrite mapM_Ok. f_equal. fold pairs.
  rewrite group_by_class1_grouped by apply extract_pairs_nodup.
  unfold grouped, Dict.values. rewrite map_map. simpl.
  apply map_ext. intros r. apply map_id.
Qed.

(** ** The keys of the extracted matrix *)

Lemma getitem_default_cases {K V : Type} `{EqDec K}
    (d : dict K V) (k : K) (default v : V) (d' : dict K V) :
  Dict.getitem_default d k default = (v, d') ->
  (Dict.get d k = Some v /\ d' = d)
  \/ (~ In k (Dict.keys d) /\ v = default /\ d' = d ++ [(k, default)]).
Proof.
  unfold Dict.getitem_default.
  destruct (Dict.get d k) as [v0|] eqn:Hg; intros [= <- <-].
  - now left.
  - right. apply get_None_notin in Hg. now rewrite set_fresh.
Qed.

Lemma extract_cell_nonzero_eq i st j cell :
  cell_is_zero cell = false ->
  exists c1 cl1 c2 cl2,
    Dict.getitem_default st.(classes1) i [] = (c1, cl1)
    /\ Dict.getitem_default st.(classes2) j [] = (c2, cl2)
    /\ extract_cell i st (j, cell)
       = {| classes1 := cl1;
            classes2 := cl2;
            all_pairs :=
              Dict.set st.(all_pairs) (c1, c2)
                (cell.(Value1), cell.(Value2)) |}.
Proof.
  unfold extract_cell, cell_is_zero. intros ->.
  destruct (Dict.getitem_default (classes1 st) i []) as [c1 cl1].
  destruct (Dict.getitem_default (classes2 st) j []) as [c2 cl2].
  now exists c1, cl1, c2, cl2.
Qed.

Lemma classes_ok_grouped {A : Type} (key : A -> Z) (elt : A -> Glyph) xs :
  classes_ok key elt xs (grouped key elt xs).
Proof.
  split.
  - intros i l Hin. unfold grouped in Hin. apply in_map_iff in Hin.
    now destruct Hin as (r & [= <- <-] & _).
  - intros x Hx. rewrite keys_grouped. apply in_first_occurrences.
    now apply in_map.
Qed.

Lemma classes_ok_read {A : Type} (key : A -> Z) (elt : A -> Glyph) xs
    classes i l classes' :
  classes_ok key elt xs classes ->
  Dict.getitem_default classes i [] = (l, classes') ->
  l = map elt (filter (fun x => same (key x) i) xs)
  /\ classes_ok key elt xs classes'
  /\ (forall kv, In kv classes -> In kv classes').
Proof.
  intros [Hlists Hkeys] Hread.
  destruct (getitem_default_cases _ _ _ _ _ Hread)
    as [[Hget ->]|(Hn & -> & ->)].
  - split; [|split; [split|]]; auto.
    apply (Hlists i). now apply get_Some_In.
  - assert (Hnil : map elt (filter (fun x => same (key x) i) xs) = []).
    { rewrite (filter_key_absent key elt xs i); trivial.
      intros Hin. apply in_map_iff in Hin. destruct Hin as (x & <- & Hx).
      auto. }
    split; [now rewrite Hnil|split; [split|]].
    + intros i' l Hin. apply in_app_or in Hin.
      destruct Hin as [Hin|[[= <- <-]|[]]]; [now apply Hlists|].
      now rewrite Hnil.
    + intros x Hx. unfold Dict.keys. rewrite map_app.
      apply in_or_app. left. now apply Hkeys.
    + intros kv Hin. apply in_or_app. now left.
Qed.

Section ExtractionKeys.
Variable subtable : PairPos.

Lemma loop_ok_cell st cells i j cell :
  loop_ok subtable st cells ->
  loop_ok subtable (extract_cell i st (j, cell)) (cells ++ [(i, j, cell)]).
Proof.
  intros (H1 & H2 & Hpairs). unfold loop_ok.
  rewrite fold_left_app. cbn [fold_left]. rewrite <- Hpairs.
  unfold store_cell. destruct (cell_is_zero cell) eqn:Hz.
  - rewrite extract_cell_zero by assumption. auto.
  - destruct (extract_cell_nonzero_eq i st j cell Hz)
      as (c1 & cl1 & c2 & cl2 & Hr1 & Hr2 & ->).
    destruct (classes_ok_read _ _ _ _ _ _ _ H1 Hr1) as (-> & H1' & _).
    destruct (classes_ok_read _ _ _ _ _ _ _ H2 Hr2) as (-> & H2' & _).
    cbn [classes1 classes2 all_pairs]. rewrite map_id. auto.
Qed.

Lemma loop_ok_row i row : forall j st cells,
  loop_ok subtable st cells ->
  loop_ok subtable (fold_left (extract_cell i) (enumerate_from j row) st)
          (cells ++ map (fun jc => (i, fst jc, snd jc)) (enumerate_from j row)).
Proof.
  induction row as [|cell row IH]; cbn [fold_left enumerate_from map];
    intros j st cells Hok.
  - now rewrite app_nil_r.
  - replace (cells ++ (i, fst (j, cell), snd (j, cell)) :: map _ _)
      with ((cells ++ [(i, j, cell)])
              ++ map (fun jc : Z * Class2RecordT => (i, fst jc, snd jc))
                     (enumerate_from (j + 1) row))
      by (now rewrite <- app_assoc).
    apply IH. now apply loop_ok_cell.
Qed.

Lemma loop_ok_rows rows : forall i st cells,
  loop_ok subtable st cells ->
  loop_ok subtable (fold_left extract_row (enumerate_from i rows) st)
          (cells ++ flat_map
                      (fun ir =>
                         map (fun jc => (fst ir, fst jc, snd jc))
                             (enumerate (snd ir).(Class2Record)))
                      (enumerate_from i rows)).
Proof.
  induction rows as [|row rows IH]; cbn [fold_left enumerate_from flat_map];
    intros i st cells Hok.
  - now rewrite app_nil_r.
  - rewrite app_assoc. apply IH. unfold extract_row, enumerate.
    now apply loop_ok_row.
Qed.

Lemma extract_pairs_store_cells :
  (extract_pairs subtable).(all_pairs)
  = fold_left (store_cell subtable) (indexed_cells subtable) [].
Proof.
  assert (Hok : loop_ok subtable (extract_pairs subtable)
                  (indexed_cells subtable)).
  { unfold extract_pairs, indexed_cells, enumerate.
    apply (loop_ok_rows _ 0 _ []).
    split; [|split; [|reflexivity]]; simpl.
    - rewrite build_classes1_grouped. apply classes_ok_grouped.
    - rewrite build_classes2_grouped. apply classes_ok_grouped. }
  apply Hok.
Qed.

Lemma store_cells_entry cells : forall acc key v,
  In (key, v) (fold_left (store_cell subtable) cells acc) ->
  In (key, v) acc
  \/ exists i j cell,
       In (i, j, cell) cells /\ cell_is_zero cell = false
       /\ key = cell_key subtable i j
       /\ v = (cell.(Value1), cell.(Value2)).
Proof.
  induction cells as [|[[i j] cell] cells IH]; simpl; intros acc key v Hin.
  - now left.
  - destruct (IH _ _ _ Hin) as [Hacc|(i' & j' & cell' & Hc & Hrest)].
    + destruct (cell_is_zero cell) eqn:Hz; [now left|].
      apply In_set_inv in Hacc. destruct Hacc as [[= -> ->]|Hacc];
        [|now left].
      right. exists i, j, cell. auto.
    + right. exists i', j', cell'. auto.
Qed.

Lemma store_cells_keeps_keys cells : forall acc key,
  In key (Dict.keys acc) ->
  In key (Dict.keys (fold_left (store_cell subtable) cells acc)).
Proof.
  induction cells as [|[[i j] cell] cells IH]; simpl; intros acc key Hin;
    trivial.
  apply IH. destruct (cell_is_zero cell); trivial.
  apply in_keys_set. now right.
Qed.

Lemma store_cells_key cells : forall acc i j cell,
  In (i, j, cell) cells -> cell_is_zero cell = false ->
  In (cell_key subtable i j)
     (Dict.keys (fold_left (store_cell subtable) cells acc)).
Proof.
  induction cells as [|[[i' j'] cell'] cells IH]; simpl;
    intros acc i j cell Hin Hz; [destruct Hin|].
  destruct Hin as [[= -> -> ->]|Hin]; [|now apply (IH _ i j cell)].
  rewrite Hz. apply store_cells_keeps_keys. apply in_keys_set. now left.
Qed.

(** X6. The entries of the extracted pair matrix are the cells that are
    not zero: an entry has the values of such a cell, under the key made of
    the covered glyphs of the cell's row class and the [ClassDef2] glyphs of
    its column class (empty lists for classes without glyph); and every
    cell that is not zero has its key in the matrix. *)
Theorem extracted_entries_are_nonzero_cells :
  (forall key v,
     In (key, v) (extract_pairs subtable).(all_pairs) ->
     exists i j cell,
       In (i, j, cell) (indexed_cells subtable)
       /\ cell_is_zero cell = false
       /\ key = (class1_glyphs subtable i, class2_glyphs subtable j)
       /\ v = (cell.(Value1), cell.(Value2)))
  /\ (forall i j cell,
        In (i, j, cell) (indexed_cells subtable) ->
        cell_is_zero cell = false ->
        In (class1_glyphs subtable i, class2_glyphs subtable j)
           (Dict.keys (extract_pairs subtable).(all_pairs))).
Proof.
  rewrite extract_pairs_store_cells. split.
  - intros key v Hin. apply store_cells_entry in Hin.
    destruct Hin as [[]|Hin]. exact Hin.
  - intros i j cell Hin Hz. now apply (store_cells_key _ _ i j cell).
Qed.

End ExtractionKeys.

Lemma store_cells_get_other subtable cells key : forall acc,
  (forall i j cell, In (i, j, cell) cells -> cell_is_zero cell = false ->
     cell_key subtable i j <> key) ->
  Dict.get (fold_left (store_cell subtable) cells acc) key = Dict.get acc key.
Proof.
  induction cells as [|[[i j] cell] cells IH]; simpl; intros acc Hother;
    trivial.
  rewrite IH by (intros i' j' cell' Hin; apply Hother; now right).
  destruct (cell_is_zero cell) eqn:Hz; trivial.
  apply get_set_other. intros Heq.
  apply (Hother i j cell); auto.
Qed.

(** X7. When two cells that are not zero have the same key (two classes
    without glyph, say), the later one wins: the matrix holds, under the
    key of a cell, the values of that cell if no later cell that is not
    zero has the same key. *)
Theorem last_cell_of_a_key_wins (subtable : PairPos)
    (before after : list (Z * Z * Class2RecordT))
    (i j : Z) (cell : Class2RecordT) :
  indexed_cells subtable = before ++ (i, j, cell) :: after ->
  cell_is_zero cell = false ->
  (forall i' j' cell',
     In (i', j', cell') after -> cell_is_zero cell' = false ->
     cell_key subtable i' j' <> cell_key subtable i j) ->
  Dict.get (extract_pairs subtable).(all_pairs) (cell_key subtable i j)
  = Some (cell.(Value1), cell.(Value2)).
Proof.
  intros Hcells Hz Hafter.
  rewrite extract_pairs_store_cells, Hcells, fold_left_app. simpl.
  rewrite store_cells_get_other by assumption.
  rewrite Hz. apply get_set_same.
Qed.

Lemma last_cell_of_a_key_wins_witness :
  Dict.get (extract_pairs spec_example_subtable).(all_pairs)
    (["a"; "b"], ["x"])
  = Some (Some (advance 10), None).
Proof.
  apply (last_cell_of_a_key_wins spec_example_subtable
           [(0, 0, zero_cell)]
           [(0, 2, kern 20); (1, 0, zero_cell); (1, 1, kern 30);
            (1, 2, kern 0)]
           0 1 (kern 10)).
  - reflexivity.
  - reflexivity.
  - intros i' j' cell' Hin Hz.
    simpl in Hin.
    destruct Hin as [Heq|[Heq|[Heq|[Heq|[]]]]];
      injection Heq as <- <- <-; try discriminate Hz;
      vm_compute; discriminate.
Defined.

(** ** The guard of "auto" *)

Lemma class1_keys_are_classes (subtable : PairPos) :
  forall item,
    In item (extract_pairs subtable).(all_pairs) ->
    In (class1_of item) (Dict.values (extract_pairs subtable).(classes1)).
Proof.
  apply (extract_pairs_invariant
           (fun st => forall item, In item st.(all_pairs) ->
                        In (class1_of item) (Dict.values st.(classes1)))).
  - intros i st [j cell] Hst item.
    destruct (cell_is_zero cell) eqn:Hz.
    + rewrite extract_cell_zero by assumption. apply Hst.
    + destruct (extract_cell_nonzero_eq i st j cell Hz)
        as (c1 & cl1 & c2 & cl2 & Hr1 & Hr2 & ->).
      destruct (getitem_default_spec _ _ _ _ _ Hr1) as (Hin1 & Hmono & _).
      cbn [classes1 all_pairs]. intros Hin. apply In_set_inv in Hin.
      destruct Hin as [->|Hin].
      * exact (in_map snd _ _ Hin1).
      * apply Hst in Hin. unfold Dict.values in *.
        apply in_map_iff in Hin. destruct Hin as (kv & <- & Hkv).
        apply in_map. now apply Hmono.
  - simpl. intros item [].
Qed.

Lemma distinct_class1_le_classes1 (subtable : PairPos) :
  (List.length (distinct_class1 (extract_pairs subtable).(all_pairs))
   <= List.length (extract_pairs subtable).(classes1))%nat.
Proof.
  rewrite <- (length_map snd (classes1 (extract_pairs subtable))).
  apply NoDup_incl_length; [apply NoDup_nodup|].
  intros r Hr. unfold distinct_class1 in Hr. rewrite nodup_In in Hr.
  apply in_map_iff in Hr. destruct Hr as (item & <- & Hin).
  now apply class1_keys_are_classes.
Qed.

(** X8. When [len(classes1) < 2] sends "auto" to the path of "one", the
    pair matrix has at most one class1 key, and the call returns what "one"
    returns: the clustering, the set order and the clustering arguments
    have no part in it. *)
Theorem auto_with_one_class_is_one
    fit_predict fit_predict' list_of_set list_of_set'
    (B : Type) (build : Pairs -> GlyphMap -> result B)
    (ttf : TTFont) (kwargs kwargs' : Kwargs) (lookup : Lookup)
    (subtable : PairPos) :
  len (extract_pairs subtable).(classes1) < 2 ->
  compact_class_pairs fit_predict list_of_set build ttf
    (mode_config "auto" kwargs) lookup subtable
  = compact_class_pairs fit_predict' list_of_set' build ttf
      (mode_config "one" kwargs') lookup subtable
  /\ (List.length (distinct_class1 (extract_pairs subtable).(all_pairs))
      <= 1)%nat.
Proof.
  intros Hlt. split.
  - unfold compact_class_pairs. simpl.
    apply Z.ltb_lt in Hlt. now rewrite Hlt.
  - pose proof (distinct_class1_le_classes1 subtable). unfold len in Hlt. lia.
Qed.

Lemma auto_with_one_class_is_one_witness :
  compact_class_pairs two_rows_needed dedup example_builder (font_of [])
    (mode_config "auto" []) (pair_lookup [single_class_subtable])
    single_class_subtable
  = compact_class_pairs single_cluster dedup example_builder (font_of [])
      (mode_config "one" [("lines_per_cluster", PyInt 0)])
      (pair_lookup [single_class_subtable]) single_class_subtable
  /\ (List.length
        (distinct_class1 (extract_pairs single_class_subtable).(all_pairs))
      <= 1)%nat.
Proof.
  apply auto_with_one_class_is_one. vm_compute. reflexivity.
Defined.

(** ** The groups of the clustering *)

Lemma set_map_values {K V W : Type} `{EqDec K} (f : V -> W)
    (d : dict K V) (k : K) (v : V) :
  Dict.set (map_values f d) k (f v) = map_values f (Dict.set d k v).
Proof.
  induction d as [|[k' v'] d IH]; simpl; [reflexivity|].
  destruct (eq_dec k k'); simpl; [reflexivity|]. now rewrite IH.
Qed.

Lemma get_or_map_values {K V W : Type} `{EqDec K} (f : V -> W)
    (d : dict K V) (k : K) (default : V) :
  Dict.get_or (map_values f d) k (f default) = f (Dict.get_or d k default).
Proof.
  unfold Dict.get_or.
  induction d as [|[k' v'] d IH]; simpl; [reflexivity|].
  destruct (eq_dec k k'); [reflexivity | exact IH].
Qed.

Lemma line_of_group_by_class1 (pairs : Pairs) (class1 : GlyphTuple) :
  NoDup (Dict.keys pairs) ->
  line_of (group_by_class1 pairs) class1 = matrix_line pairs class1.
Proof.
  intros Hnd. unfold line_of. rewrite group_by_class1_grouped by assumption.
  rewrite (get_or_grouped class1_of (fun x => x) pairs class1).
  apply map_id.
Qed.

(** As long as the rows are distinct, updating the group of a label with
    the line of a row appends the line. *)
Lemma assign_fold_merge lines done cls : forall st rows,
  lines_inv lines done -> NoDup (Dict.keys done) ->
  (forall kv item, In kv (fst st) -> In item (snd kv) ->
     In (class1_of item) rows) ->
  NoDup (rows ++ map fst cls) ->
  fold_left (assign_line lines) cls st
  = fold_left (merge_line (line_of lines)) cls st.
Proof.
  induction cls as [|[c label] cls IH]; simpl; intros st rows Hinv Hnd Hst Hrows;
    [reflexivity|].
  assert (Hc : ~ In c rows).
  { apply NoDup_remove_2 in Hrows. intros Hin. apply Hrows.
    apply in_or_app. now left. }
  assert (Hstep : assign_line lines st (c, label)
                  = merge_line (line_of lines) st (c, label)).
  { destruct st as [grouped ungrouped].
    unfold assign_line, merge_line, is_outlier. simpl.
    fold (line_of lines c).
    destruct (label =? -1); [reflexivity|].
    unfold Dict.getitem_default, Dict.get_or.
    unfold Pairs, dict in *.
    destruct (Dict.get grouped label) as [group|] eqn:Hg.
    - f_equal. f_equal. apply update_disjoint.
      + now apply (line_of_nodup lines done).
      + intros k Hk Hk'.
        apply in_map_iff in Hk. destruct Hk as (item & Hfst & Hitem).
        apply in_map_iff in Hk'. destruct Hk' as (item' & Hfst' & Hitem').
        apply (line_of_class1 _ _ _ _ Hinv) in Hitem.
        apply get_Some_In in Hg.
        pose proof (Hst (label, group) item' Hg Hitem') as Hin.
        apply Hc. unfold class1_of in *. congruence.
    - rewrite set_set_same. f_equal. f_equal. apply update_disjoint.
      + now apply (line_of_nodup lines done).
      + intros k _ []. }
  rewrite Hstep.
  apply (IH _ (rows ++ [c])); trivial.
  - intros kv item Hkv Hitem. destruct st as [grouped ungrouped].
    unfold merge_line, is_outlier in Hkv. simpl in Hkv.
    destruct (label =? -1); simpl in Hkv.
    + apply in_or_app. left. now apply (Hst kv).
    + apply In_set_inv in Hkv. destruct Hkv as [->|Hkv].
      * simpl in Hitem. apply in_app_or in Hitem.
        destruct Hitem as [Hitem|Hitem].
        -- apply in_or_app. left.
           unfold Dict.get_or in Hitem. unfold Pairs, dict in *.
           destruct (Dict.get grouped label) as [group|] eqn:Hg;
             [|contradiction].
           apply get_Some_In in Hg. now apply (Hst (label, group)).
        -- apply in_or_app. right. left.
           symmetry. now apply (line_of_class1 lines done).
      * apply in_or_app. left. now apply (Hst kv).
  - now rewrite <- app_assoc.
Qed.

Lemma filter_snoc {A : Type} (p : A -> bool) (l : list A) (x : A) :
  filter p (l ++ [x]) = if p x then filter p l ++ [x] else filter p l.
Proof.
  rewrite filter_app. simpl. destruct (p x); [reflexivity|].
  apply app_nil_r.
Qed.

Section MergedGroups.
Variable line : GlyphTuple -> Pairs.

Lemma merge_line_snoc (done : list (GlyphTuple * Z)) (cl : GlyphTuple * Z) :
  merge_line line (merged_groups line done, outlier_lines line done) cl
  = (merged_groups line (done ++ [cl]), outlier_lines line (done ++ [cl])).
Proof.
  unfold merge_line, merged_groups, outlier_lines, clustered.
  rewrite !filter_snoc. simpl.
  destruct (is_outlier cl); simpl.
  - now rewrite map_app.
  - f_equal. rewrite grouped_snoc.
    rewrite <- set_map_values. f_equal.
    rewrite concat_app. simpl. rewrite app_nil_r. f_equal.
    exact (get_or_map_values (@List.concat (PairKey * ValuePair)) _ _ []).
Qed.

Lemma merge_fold todo : forall done,
  fold_left (merge_line line) todo (merged_groups line done, outlier_lines line done)
  = (merged_groups line (done ++ todo), outlier_lines line (done ++ todo)).
Proof.
  induction todo as [|cl todo IH]; simpl; intros done.
  - now rewrite app_nil_r.
  - rewrite merge_line_snoc, IH. now rewrite <- app_assoc.
Qed.

Lemma values_merged_groups (cls : list (GlyphTuple * Z)) :
  Dict.values (merged_groups line cls)
  = map (fun label =>
           flat_map (fun cl => line (fst cl))
                    (filter (fun cl => same (snd cl) label) (clustered cls)))
        (first_occurrences (map snd (clustered cls))).
Proof.
  unfold merged_groups, map_values, grouped, Dict.values.
  rewrite !map_map. simpl. apply map_ext. intros label.
  symmetry. apply flat_map_concat_map.
Qed.

End MergedGroups.

Lemma NoDup_map_fst_combine {A B : Type} (l1 : list A) : forall l2 : list B,
  NoDup l1 -> NoDup (map fst (combine l1 l2)).
Proof.
  induction l1 as [|x l1 IH]; intros [|y l2] Hnd; simpl; try constructor.
  - inversion Hnd as [|? ? Hnotin _]; subst. intros Hin. apply Hnotin.
    apply in_map_iff in Hin. destruct Hin as ([x' y'] & Hx & Hin).
    simpl in Hx. subst x'. now apply in_combine_l in Hin.
  - apply IH. now inversion Hnd.
Qed.

Lemma cluster_groups_by_label fit_predict list_of_set
    (pairs : Pairs) (kwargs : Kwargs) (groups : list Pairs) :
  enumerates_set list_of_set ->
  NoDup (Dict.keys pairs) ->
  cluster_pairs_by_class2_coverage fit_predict list_of_set pairs kwargs
    = Ok groups ->
  exists arguments labels,
    clustering_arguments (len (distinct_class1 pairs)) kwargs = Ok arguments
    /\ fit_predict arguments (occupancy_vectors list_of_set pairs) = Ok labels
    /\ groups
       = clustered_groups pairs
           (combine (list_of_set (map (fun pr => fst pr) (Dict.keys pairs)))
                    labels).
Proof.
  intros Hset Hnd. pose proof (group_by_class1_inv _ Hnd) as Hinv.
  unfold cluster_pairs_by_class2_coverage.
  replace (len (group_by_class1 pairs)) with (len (distinct_class1 pairs))
    by (unfold len; now rewrite length_group_by_class1).
  fold (occupancy_vectors list_of_set pairs).
  set (all_class1 := list_of_set (map (fun pr => fst pr) (Dict.keys pairs))).
  destruct (clustering_arguments _ kwargs) as [arguments|e]; simpl;
    [|discriminate].
  destruct (fit_predict arguments _) as [labels|e] eqn:Hfit; simpl;
    [|discriminate].
  assert (Hrows : NoDup ([] ++ map fst (combine all_class1 labels)))
    by (simpl; apply NoDup_map_fst_combine; apply Hset).
  rewrite (assign_fold_merge _ pairs _ ([], []) []);
    [ | exact Hinv | exact Hnd | intros kv item [] | exact Hrows ].
  pose proof (merge_fold (line_of (group_by_class1 pairs))
                (combine all_class1 labels) []) as Hm.
  change (fold_left (merge_line (line_of (group_by_class1 pairs)))
            (combine all_class1 labels) ([], [])
          = (merged_groups (line_of (group_by_class1 pairs))
               (combine all_class1 labels),
             outlier_lines (line_of (group_by_class1 pairs))
               (combine all_class1 labels))) in Hm.
  destruct (fold_left _ _ _) as [grouped_lines ungrouped_lines] eqn:Hfold.
  injection Hm as -> ->.
  intros [= <-]. exists arguments, labels.
  split; [reflexivity|split; [exact Hfit|]].
  rewrite values_merged_groups. unfold clustered_groups, outlier_lines.
  f_equal.
  - apply map_ext. intros label. apply flat_map_ext. intros cl.
    now apply line_of_group_by_class1.
  - apply map_ext. intros cl. now apply line_of_group_by_class1.
Qed.

(** X9. The groups of the clustering, in order.  When
    [cluster_pairs_by_class2_coverage] returns, the clustering has been
    called once, with the keyword arguments made for the number of class1
    keys and with the occupancy vectors, and the groups are: for each label
    other than -1, in the order in which the labels first come up along the
    rows, the lines of the rows with that label, one after the other; then
    one group for each row labelled -1, its line.  (The keys of [pairs] are
    distinct, as in any dictionary.) *)
Theorem auto_groups_follow_labels fit_predict list_of_set
    (pairs : Pairs) (kwargs : Kwargs) (groups : list Pairs) :
  enumerates_set list_of_set ->
  NoDup (Dict.keys pairs) ->
  cluster_pairs_by_class2_coverage fit_predict list_of_set pairs kwargs
    = Ok groups ->
  exists arguments labels,
    clustering_arguments (len (distinct_class1 pairs)) kwargs = Ok arguments
    /\ fit_predict arguments (occupancy_vectors list_of_set pairs) = Ok labels
    /\ groups
       = clustered_groups pairs
           (combine (list_of_set (map (fun pr => fst pr) (Dict.keys pairs)))
                    labels).
Proof. exact (cluster_groups_by_label fit_predict list_of_set pairs kwargs groups). Qed.

Lemma matrix_line_spec (pairs : Pairs) (class1 : GlyphTuple) item :
  In item (matrix_line pairs class1)
  <-> In item pairs /\ class1_of item = class1.
Proof.
  unfold matrix_line. rewrite filter_In. now rewrite same_true.
Qed.

Lemma clustered_groups_whole_lines (pairs : Pairs)
    (cls : list (GlyphTuple * Z)) (g : Pairs) :
  (forall cl, In cl cls -> In (fst cl) (map class1_of pairs)) ->
  In g (clustered_groups pairs cls) ->
  g <> []
  /\ forall item item',
       In item g -> In item' pairs ->
       class1_of item' = class1_of item -> In item' g.
Proof.
  intros Hrows Hg.
  assert (Hline : forall cl, In cl cls -> matrix_line pairs (fst cl) <> []).
  { intros cl Hcl Hnil. apply Hrows in Hcl. apply in_map_iff in Hcl.
    destruct Hcl as (item & Hc & Hin).
    assert (Hitem : In item (matrix_line pairs (fst cl)))
      by (now apply matrix_line_spec).
    rewrite Hnil in Hitem. destruct Hitem. }
  unfold clustered_groups in Hg. apply in_app_or in Hg.
  destruct Hg as [Hg|Hg].
  - apply in_map_iff in Hg. destruct Hg as (label & <- & Hlabel).
    apply (proj1 (in_first_occurrences _ _)) in Hlabel.
    apply in_map_iff in Hlabel. destruct Hlabel as (cl & Hl & Hcl).
    split.
    + intros Hnil.
      assert (Hin : In cl (filter (fun cl0 => same (snd cl0) label)
                                  (clustered cls)))
        by (apply filter_In; split; [assumption | now apply same_true]).
      apply (Hline cl).
      * unfold clustered in Hcl. now apply filter_In in Hcl.
      * destruct (matrix_line pairs (fst cl)) as [|item l] eqn:Hm; trivial.
        exfalso.
        assert (Hitem : In item
                  (flat_map (fun cl0 => matrix_line pairs (fst cl0))
                     (filter (fun cl0 => same (snd cl0) label)
                             (clustered cls)))).
        { apply in_flat_map. exists cl. split; trivial.
          rewrite Hm. now left. }
        rewrite Hnil in Hitem. destruct Hitem.
    + intros item item' Hitem Hitem' Hclass.
      apply in_flat_map in Hitem. destruct Hitem as (cl' & Hcl' & Hitem).
      apply in_flat_map. exists cl'. split; trivial.
      apply matrix_line_spec in Hitem. apply matrix_line_spec.
      split; [assumption | destruct Hitem; congruence].
  - apply in_map_iff in Hg. destruct Hg as (cl & <- & Hcl).
    apply filter_In in Hcl. destruct Hcl as [Hcl _].
    split; [now apply Hline|].
    intros item item' Hitem Hitem' Hclass.
    apply matrix_line_spec in Hitem. apply matrix_line_spec.
    split; [assumption | destruct Hitem; congruence].
Qed.

(** X10. No group of the clustering is empty, and no line is split: a
    group that holds one entry of the matrix holds every entry with the
    same class1 key. *)
Theorem auto_groups_hold_whole_lines fit_predict list_of_set
    (pairs : Pairs) (kwargs : Kwargs) (groups : list Pairs) (g : Pairs) :
  enumerates_set list_of_set ->
  NoDup (Dict.keys pairs) ->
  cluster_pairs_by_class2_coverage fit_predict list_of_set pairs kwargs
    = Ok groups ->
  In g groups ->
  g <> []
  /\ forall item item',
       In item g -> In item' pairs ->
       class1_of item' = class1_of item -> In item' g.
Proof.
  intros Hset Hnd Hrun Hg.
  destruct (cluster_groups_by_label _ _ _ _ _ Hset Hnd Hrun)
    as (arguments & labels & _ & _ & ->).
  refine (clustered_groups_whole_lines pairs _ g _ Hg).
  intros [c label] Hcl. apply in_combine_l in Hcl. simpl.
  apply (proj1 (proj2 (Hset _) _)) in Hcl.
  unfold Dict.keys in Hcl. rewrite map_map in Hcl. exact Hcl.
Qed.

Lemma auto_groups_follow_labels_witness :
  exists arguments labels,
    clustering_arguments
      (len (distinct_class1 (extract_pairs spec_example_subtable).(all_pairs)))
      [] = Ok arguments
    /\ outlier_then_seven arguments
         (occupancy_vectors dedup
            (extract_pairs spec_example_subtable).(all_pairs)) = Ok labels
    /\ [line_c; line_ab]
       = clustered_groups (extract_pairs spec_example_subtable).(all_pairs)
           (combine
              (dedup (map (fun pr => fst pr)
                        (Dict.keys
                           (extract_pairs spec_example_subtable).(all_pairs))))
              labels).
Proof.
  exact (auto_groups_follow_labels outlier_then_seven dedup
           (extract_pairs spec_example_subtable).(all_pairs) [] _
           dedup_enumerates (extract_pairs_nodup spec_example_subtable)
           eq_refl).
Defined.

Lemma auto_groups_hold_whole_lines_witness :
  line_ab <> []
  /\ forall item item',
       In item line_ab ->
       In item' (extract_pairs spec_example_subtable).(all_pairs) ->
       class1_of item' = class1_of item ->
       In item' line_ab.
Proof.
  apply (auto_groups_hold_whole_lines outlier_then_seven dedup
           (extract_pairs spec_example_subtable).(all_pairs) [] _ _
           dedup_enumerates (extract_pairs_nodup spec_example_subtable)
           eq_refl).
  right. now left.
Defined.

(** ** The keyword arguments of the clustering *)

Section KwargsFacts.
Context {V : Type}.
Implicit Types (d : dict string V) (k : string) (v : V).

Lemma get_setdefault d k v k' :
  Dict.get (Dict.setdefault d k v) k'
  = if string_dec k' k then Some (Dict.get_or d k v) else Dict.get d k'.
Proof.
  unfold Dict.setdefault, Dict.mem, Dict.get_or.
  destruct (Dict.get d k) as [w|] eqn:Hg.
  - destruct (string_dec k' k) as [->|Hne]; [assumption | reflexivity].
  - destruct (string_dec k' k) as [->|Hne].
    + apply get_set_same.
    + now apply get_set_other.
Qed.

Lemma get_remove_other d k k' :
  k' <> k -> Dict.get (Dict.remove d k) k' = Dict.get d k'.
Proof.
  intros Hne. induction d as [|[k0 v0] d IH]; simpl; [reflexivity|].
  destruct (eq_dec k k0) as [->|Hne0]; simpl.
  - destruct (eq_dec k' k0); [congruence | reflexivity].
  - destruct (eq_dec k' k0); [reflexivity | exact IH].
Qed.

Lemma get_remove_same d k :
  NoDup (Dict.keys d) -> Dict.get (Dict.remove d k) k = None.
Proof.
  induction d as [|[k0 v0] d IH]; simpl; intros Hnd; [reflexivity|].
  inversion Hnd as [|? ? Hnotin Hnd']; subst.
  destruct (eq_dec k k0) as [->|Hne]; simpl.
  - now apply get_None_notin.
  - destruct (eq_dec k k0); [congruence | now apply IH].
Qed.

End KwargsFacts.

(** X11. Without [lines_per_cluster] the call of the clustering gets what
    the caller gave, under the same names, and a default for each of
    [n_clusters] (None), [linkage] ("ward") and [distance_threshold] (5.5)
    that the caller did not give; the number of lines plays no part. *)
Theorem clustering_defaults_fill_gaps (num_lines : Z) (kwargs : Kwargs) :
  Dict.mem kwargs "lines_per_cluster" = false ->
  exists arguments,
    clustering_arguments num_lines kwargs = Ok arguments
    /\ Dict.get arguments "n_clusters"
       = Some (Dict.get_or kwargs "n_clusters" PyNone)
    /\ Dict.get arguments "linkage"
       = Some (Dict.get_or kwargs "linkage" (PyStr "ward"))
    /\ Dict.get arguments "distance_threshold"
       = Some (Dict.get_or kwargs "distance_threshold" (PyFloat 5.5))
    /\ forall name, ~ set_by_clustering name ->
         Dict.get arguments name = Dict.get kwargs name.
Proof.
  intros Hmem. unfold clustering_arguments. rewrite Hmem.
  eexists. split; [reflexivity|].
  unfold Dict.get_or. repeat (rewrite get_setdefault; simpl).
  unfold Dict.get_or. repeat (rewrite get_setdefault; simpl).
  split; [reflexivity|split; [reflexivity|split; [reflexivity|]]].
  intros name Hname. unfold set_by_clustering in Hname.
  rewrite !get_setdefault.
  destruct (string_dec name "distance_threshold"); [tauto|].
  destruct (string_dec name "linkage"); [tauto|].
  destruct (string_dec name "n_clusters"); [tauto|].
  reflexivity.
Qed.

Lemma clustering_defaults_fill_gaps_witness :
  exists arguments,
    clustering_arguments 3 [("linkage", PyStr "average")] = Ok arguments
    /\ Dict.get arguments "n_clusters"
       = Some (Dict.get_or [("linkage", PyStr "average")] "n_clusters" PyNone)
    /\ Dict.get arguments "linkage"
       = Some (Dict.get_or [("linkage", PyStr "average")] "linkage"
                 (PyStr "ward"))
    /\ Dict.get arguments "distance_threshold"
       = Some (Dict.get_or [("linkage", PyStr "average")] "distance_threshold"
                 (PyFloat 5.5))
    /\ forall name, ~ set_by_clustering name ->
         Dict.get arguments name
         = Dict.get [("linkage", PyStr "average")] name.
Proof.
  apply (clustering_defaults_fill_gaps 3 [("linkage", PyStr "average")]).
  reflexivity.
Defined.

(** X12. With [lines_per_cluster] an integer other than 0, the call of the
    clustering does not get [lines_per_cluster]; it gets
    [distance_threshold] None and the computed [n_clusters], whatever the
    caller gave under these two names, and everything else as the caller
    gave it: no default [linkage] is added.  (The names of [kwargs] are
    distinct, as in any dictionary.) *)
Theorem lines_per_cluster_replaces_arguments (num_lines k : Z)
    (kwargs : Kwargs) :
  NoDup (Dict.keys kwargs) ->
  Dict.get kwargs "lines_per_cluster" = Some (PyInt k) ->
  k <> 0 ->
  exists arguments,
    clustering_arguments num_lines kwargs = Ok arguments
    /\ Dict.get arguments "lines_per_cluster" = None
    /\ Dict.get arguments "distance_threshold" = Some PyNone
    /\ Dict.get arguments "n_clusters"
       = Some (PyInt (Z.min (Z.max (Z.quot num_lines k) 1) num_lines))
    /\ forall name,
         name <> "lines_per_cluster" -> name <> "distance_threshold" ->
         name <> "n_clusters" ->
         Dict.get arguments name = Dict.get kwargs name.
Proof.
  intros Hnd Hget Hk. unfold clustering_arguments.
  rewrite (get_mem_true _ _ _ Hget). unfold Dict.get_or. rewrite Hget.
  simpl. apply Z.eqb_neq in Hk. rewrite Hk. simpl.
  eexists. split; [reflexivity|].
  split; [|split; [|split]].
  - rewrite !get_set_other by discriminate. now apply get_remove_same.
  - apply get_set_same.
  - rewrite get_set_other by discriminate. apply get_set_same.
  - intros name H1 H2 H3.
    rewrite !get_set_other by assumption. now apply get_remove_other.
Qed.

Lemma lines_per_cluster_replaces_arguments_witness :
  exists arguments,
    clustering_arguments 7
      [("distance_threshold", PyFloat 3); ("lines_per_cluster", PyInt 2);
       ("linkage", PyStr "average")] = Ok arguments
    /\ Dict.get arguments "lines_per_cluster" = None
    /\ Dict.get arguments "distance_threshold" = Some PyNone
    /\ Dict.get arguments "n_clusters"
       = Some (PyInt (Z.min (Z.max (Z.quot 7 2) 1) 7))
    /\ forall name,
         name <> "lines_per_cluster" -> name <> "distance_threshold" ->
         name <> "n_clusters" ->
         Dict.get arguments name
         = Dict.get
             [("distance_threshold", PyFloat 3);
              ("lines_per_cluster", PyInt 2);
              ("linkage", PyStr "average")] name.
Proof.
  apply (lines_per_cluster_replaces_arguments 7 2).
  - repeat constructor; simpl; intuition discriminate.
  - reflexivity.
  - discriminate.
Defined.

(** X13. A [lines_per_cluster] that cannot divide stops
    [cluster_pairs_by_class2_coverage] before the clustering is called:
    0 raises [ZeroDivisionError]; None or a string raises [TypeError]. *)
Theorem bad_lines_per_cluster_raises fit_predict list_of_set
    (pairs : Pairs) (kwargs : Kwargs) (v : pyval) :
  Dict.get kwargs "lines_per_cluster" = Some v ->
  (v = PyInt 0 ->
     cluster_pairs_by_class2_coverage fit_predict list_of_set pairs kwargs
     = Raise ZeroDivisionError)
  /\ (v = PyNone \/ (exists s, v = PyStr s) ->
      cluster_pairs_by_class2_coverage fit_predict list_of_set pairs kwargs
      = Raise TypeError).
Proof.
  intros Hget. unfold cluster_pairs_by_class2_coverage, clustering_arguments.
  rewrite (get_mem_true _ _ _ Hget). unfold Dict.get_or. rewrite Hget.
  split.
  - intros ->. reflexivity.
  - intros [->|[s ->]]; reflexivity.
Qed.

Lemma bad_lines_per_cluster_raises_witness :
  (PyInt 0 = PyInt 0 ->
     cluster_pairs_by_class2_coverage single_cluster dedup
       (extract_pairs spec_example_subtable).(all_pairs)
       [("lines_per_cluster", PyInt 0)]
     = Raise ZeroDivisionError)
  /\ (PyInt 0 = PyNone \/ (exists s, PyInt 0 = PyStr s) ->
      cluster_pairs_by_class2_coverage single_cluster dedup
        (extract_pairs spec_example_subtable).(all_pairs)
        [("lines_per_cluster", PyInt 0)]
      = Raise TypeError).
Proof.
  apply (bad_lines_per_cluster_raises single_cluster dedup
           (extract_pairs spec_example_subtable).(all_pairs)
           [("lines_per_cluster", PyInt 0)] (PyInt 0)).
  reflexivity.
Defined.

(** ** More on the lookup adapter *)

Section AdapterMore.

Variable fit_predict : Kwargs -> list (list Z) -> result (list Z).
Variable list_of_set : list GlyphTuple -> list GlyphTuple.
Variable build : Pairs -> GlyphMap -> result PairPos.
Variables (ttf : TTFont) (config : Config).

Local Abbreviation step :=
  (compact_lookup_step fit_predict list_of_set build ttf config).
Local Abbreviation ext_step :=
  (compact_ext_lookup_step fit_predict list_of_set build ttf config).
Local Abbreviation subtables_of :=
  (compact_subtables fit_predict list_of_set build ttf config).
Local Abbreviation dispatch :=
  (compact_dispatch fit_predict list_of_set build ttf config).
Local Abbreviation lookups_of :=
  (compact_lookups fit_predict list_of_set build ttf config).

(** X14. [compact_lookup] takes the subtables one by one, in order: the
    new list for a list of subtables is the new list for its first part
    followed by the new list for the rest, and an exception in the first
    part is the exception of the whole. *)
Theorem subtables_compacted_in_order (lookup : Lookup)
    (pre post : list SubTableT) :
  subtables_of lookup (pre ++ post)
  = (a <- subtables_of lookup pre ;;
     b <- subtables_of lookup post ;;
     Ok (a ++ b)).
Proof. apply compact_subtables_app. Qed.

(** X15. In [compact_lookup] a subtable whose format is neither 1 nor 2
    leaves no trace: the new list is the one the lookup would get without
    it. *)
Theorem unknown_format_subtable_dropped (lookup : Lookup)
    (subtable : SubTableT) (pre post : list SubTableT) :
  Format_of subtable <> 1 -> Format_of subtable <> 2 ->
  subtables_of lookup (pre ++ subtable :: post)
  = subtables_of lookup (pre ++ post).
Proof. apply other_format_dropped. Qed.

Lemma dispatch_rewritten (lookup lookup' : Lookup) :
  dispatch lookup = Ok lookup' -> rewritten_from lookup lookup'.
Proof.
  unfold compact_dispatch, rewritten_from.
  destruct (LookupType lookup =? 2) eqn:H2.
  - unfold compact_lookup.
    destruct (compact_subtables _ _ _ _ _ _ _) as [l|e]; simpl;
      [|discriminate].
    intros [= <-]. simpl. apply Z.eqb_eq in H2. split; [reflexivity|lia].
  - destruct (LookupType lookup =? 9) eqn:H9.
    + destruct (match SubTable lookup with
                | [] => Raise IndexError
                | first :: _ => ExtensionLookupType_of first
                end) as [t|e]; simpl; [|discriminate].
      apply Z.eqb_eq in H9. destruct (t =? 2).
      * unfold compact_ext_lookup.
        destruct (foldM _ _ _) as [st|e]; simpl; [|discriminate].
        intros [= <-]. simpl. split; [reflexivity|lia].
      * intros [= <-]. split; reflexivity.
    + intros [= <-]. split; reflexivity.
Qed.

Lemma lookups_rewritten (lookups : list Lookup) :
  Forall2 rewritten_from lookups (fst (lookups_of lookups)).
Proof.
  induction lookups as [|lookup lookups IH]; simpl; [constructor|].
  destruct (dispatch lookup) as [lookup'|e] eqn:Hd; simpl.
  - destruct (lookups_of lookups) as [rest' e']. simpl in *.
    constructor; [now apply dispatch_rewritten | exact IH].
  - constructor; [split; reflexivity|].
    clear. induction lookups; constructor; [split; reflexivity | assumption].
Qed.

Lemma lookups_untouched (lookups : list Lookup) :
  Forall (fun lookup => lookup.(LookupType) <> 2 /\ lookup.(LookupType) <> 9)
         lookups ->
  lookups_of lookups = (lookups, None).
Proof.
  induction 1 as [|lookup lookups [H2 H9] _ IH]; simpl; [reflexivity|].
  unfold compact_dispatch.
  apply Z.eqb_neq in H2, H9. rewrite H2, H9, IH. reflexivity.
Qed.

(** Every subtable that [compact_ext_lookup] puts in the new list is a
    wrapper it has made. *)
Lemma ext_step_wrappers (lookup : Lookup) st ext st' :
  Forall (fun s => exists inner, s = fresh_wrapper inner) (fst st) ->
  ext_step lookup st ext = Ok st' ->
  Forall (fun s => exists inner, s = fresh_wrapper inner) (fst st').
Proof.
  destruct st as [acc stale]. unfold compact_ext_lookup_step. simpl.
  intros Hacc.
  destruct (ExtSubTable_of ext) as [subtable|e]; simpl; [|discriminate].
  destruct (if Format_of subtable =? 1
            then Ok (Some (compact_glyph_pairs ttf config lookup subtable))
            else if Format_of subtable =? 2
                 then l <- compact_class_subtable fit_predict list_of_set
                             build ttf config lookup subtable ;; Ok (Some l)
                 else Ok stale) as [[l|]|e]; simpl; try discriminate.
  intros [= <-]. simpl. apply Forall_app. split; trivial.
  apply Forall_forall. intros s Hs. apply in_map_iff in Hs.
  destruct Hs as (inner & <- & _). now exists inner.
Qed.

Lemma foldM_invariant {S A : Type} (P : S -> Prop) (f : S -> A -> result S)
    (l : list A) :
  (forall s x s', P s -> f s x = Ok s' -> P s') ->
  forall s s', P s -> foldM f l s = Ok s' -> P s'.
Proof.
  intros Hf. induction l as [|x l IH]; simpl; intros s s' Hs.
  - now intros [= <-].
  - destruct (f s x) as [s1|e] eqn:Hx; simpl; [|discriminate].
    apply IH. now apply (Hf s x).
Qed.

(** X16. The new list of an extension lookup holds wrappers that
    [compact_ext_lookup] has made, and nothing else: each has format 1 and
    no [ExtensionLookupType]; the lookup keeps its type, and the count
    recorded is the length of the list. *)
Theorem ext_lookup_holds_fresh_wrappers (lookup lookup' : Lookup) :
  compact_ext_lookup fit_predict list_of_set build ttf config lookup
    = Ok lookup' ->
  Forall (fun s => exists inner, s = ExtensionPosT 1 None inner)
         lookup'.(SubTable)
  /\ lookup'.(LookupType) = lookup.(LookupType)
  /\ lookup'.(SubTableCount) = len lookup'.(SubTable).
Proof.
  unfold compact_ext_lookup.
  destruct (foldM _ _ _) as [st|e] eqn:Hfold; simpl; [|discriminate].
  intros [= <-]. simpl. split; [|split; reflexivity].
  exact (foldM_invariant
           (fun st => Forall (fun s => exists inner, s = fresh_wrapper inner)
                             (fst st))
           (ext_step lookup) lookup.(SubTable)
           (ext_step_wrappers lookup) ([], None) st (Forall_nil _) Hfold).
Qed.

(** The extension path and the direct path, subtable by subtable. *)
Lemma ext_fold_as_direct (lookup : Lookup) (exts : list SubTableT) :
  forall inners acc stale,
    mapM ExtSubTable_of exts = Ok inners ->
    Forall (fun s => Format_of s = 1 \/ Format_of s = 2) inners ->
    (st <- foldM (ext_step lookup) exts (acc, stale) ;; Ok (fst st))
    = (new <- subtables_of lookup inners ;;
       Ok (acc ++ map fresh_wrapper new)).
Proof.
  induction exts as [|ext exts IH]; intros inners acc stale Hin Hfmt.
  - simpl in Hin. injection Hin as <-. simpl. now rewrite app_nil_r.
  - cbn [mapM] in Hin. cbn [foldM].
    destruct (ExtSubTable_of ext) as [inner|e] eqn:Hext; simpl in Hin;
      [|discriminate].
    destruct (mapM ExtSubTable_of exts) as [inners'|e] eqn:Hrest;
      simpl in Hin; [|discriminate].
    injection Hin as <-. inversion Hfmt as [|? ? Hinner Hfmt']; subst.
    rewrite compact_subtables_cons.
    unfold compact_ext_lookup_step at 1. rewrite Hext.
    cbn [bind compact_glyph_pairs].
    unfold compact_lookup_step.
    destruct Hinner as [H1|H2].
    + rewrite H1. simpl.
      rewrite (IH inners' _ _ eq_refl Hfmt').
      destruct (subtables_of lookup inners') as [new|e]; simpl;
        [|reflexivity].
      now rewrite <- app_assoc.
    + rewrite H2. simpl.
      destruct (compact_class_subtable _ _ _ _ _ _ _) as [l|e]; simpl;
        [|reflexivity].
      rewrite (IH inners' _ _ eq_refl Hfmt').
      destruct (subtables_of lookup inners') as [new|e]; simpl;
        [|reflexivity].
      now rewrite map_app, <- app_assoc.
Qed.

(** X17. For an extension lookup whose wrapped subtables all have format 1
    or 2, [compact_ext_lookup] does what [compact_lookup] does on the
    wrapped subtables, and wraps each subtable of the result: the same
    subtables in the same order, the same exception if there is one. *)
Theorem ext_lookup_wraps_direct_result (lookup : Lookup)
    (inners : list SubTableT) :
  mapM ExtSubTable_of lookup.(SubTable) = Ok inners ->
  Forall (fun s => Format_of s = 1 \/ Format_of s = 2) inners ->
  compact_ext_lookup fit_predict list_of_set build ttf config lookup
  = (new <- subtables_of lookup inners ;;
     Ok {| LookupType := lookup.(LookupType);
           SubTable := map (fun s => ExtensionPosT 1 None s) new;
           SubTableCount := len new |}).
Proof.
  intros Hin Hfmt. unfold compact_ext_lookup.
  pose proof (ext_fold_as_direct lookup _ inners [] None Hin Hfmt) as Hfold.
  destruct (foldM _ _ _) as [st|e]; simpl in *;
    destruct (subtables_of lookup inners) as [new|e']; simpl in *;
    try discriminate.
  - injection Hfold as ->. unfold len, fresh_wrapper.
    now rewrite length_map.
  - now injection Hfold as ->.
Qed.

End AdapterMore.

Lemma unknown_format_subtable_dropped_witness :
  compact_subtables single_cluster dedup example_builder (font_of [])
    (mode_config "max" []) (pair_lookup [])
    ([PairPosT glyph_pair_subtable] ++ PairPosT format3_subtable
       :: [PairPosT spec_example_subtable])
  = compact_subtables single_cluster dedup example_builder (font_of [])
      (mode_config "max" []) (pair_lookup [])
      ([PairPosT glyph_pair_subtable] ++ [PairPosT spec_example_subtable]).
Proof.
  apply unknown_format_subtable_dropped; discriminate.
Defined.

Lemma ext_lookup_holds_fresh_wrappers_witness :
  Forall (fun s => exists inner, s = ExtensionPosT 1 None inner)
    [ExtensionPosT 1 None (PairPosT glyph_pair_subtable);
     ExtensionPosT 1 None (PairPosT glyph_pair_subtable)]
  /\ 9 = 9
  /\ 2 = len [ExtensionPosT 1 None (PairPosT glyph_pair_subtable);
              ExtensionPosT 1 None (PairPosT glyph_pair_subtable)].
Proof.
  exact (ext_lookup_holds_fresh_wrappers single_cluster dedup example_builder
           (font_of []) (mode_config "one" [])
           (extension_lookup [glyph_pair_subtable; format3_subtable])
           {| LookupType := 9;
              SubTable :=
                [ExtensionPosT 1 None (PairPosT glyph_pair_subtable);
                 ExtensionPosT 1 None (PairPosT glyph_pair_subtable)];
              SubTableCount := 2 |}
           eq_refl).
Defined.

Lemma ext_lookup_wraps_direct_result_witness :
  compact_ext_lookup single_cluster dedup example_builder (font_of [])
    (mode_config "max" [])
    (extension_lookup [glyph_pair_subtable; spec_example_subtable])
  = (new <- compact_subtables single_cluster dedup example_builder
              (font_of []) (mode_config "max" [])
              (extension_lookup [glyph_pair_subtable; spec_example_subtable])
              [PairPosT glyph_pair_subtable; PairPosT spec_example_subtable] ;;
     Ok {| LookupType := 9;
           SubTable := map (fun s => ExtensionPosT 1 None s) new;
           SubTableCount := len new |}).
Proof.
  apply (ext_lookup_wraps_direct_result single_cluster dedup example_builder
           (font_of []) (mode_config "max" [])
           (extension_lookup [glyph_pair_subtable; spec_example_subtable])).
  - reflexivity.
  - constructor; [left; reflexivity|].
    constructor; [right; reflexivity | constructor].
Defined.

(** ** More on [compact] *)

(** X18. Whether it returns or raises, [compact] leaves the font with the
    same number of lookups, in the same order and of the same types, and
    with the same glyph map; a lookup whose type is neither 2 nor 9 is left
    exactly as it was. *)
Theorem compact_keeps_the_lookup_list fit_predict list_of_set build
    (ttf : TTFont) (m : string) (kwargs : Kwargs) (lookups : list Lookup) :
  ttf.(GPOS) = Some lookups ->
  exists lookups',
    (fst (compact fit_predict list_of_set build ttf m kwargs)).(GPOS)
      = Some lookups'
    /\ Forall2 rewritten_from lookups lookups'
    /\ (fst (compact fit_predict list_of_set build ttf m kwargs))
         .(getReverseGlyphMap)
       = ttf.(getReverseGlyphMap).
Proof.
  intros Hgpos. unfold compact. rewrite Hgpos.
  pose proof (lookups_rewritten fit_predict list_of_set build ttf
                {| mode := m; clustering_kwargs := kwargs |} lookups) as Hall.
  destruct (compact_lookups _ _ _ _ _ lookups) as [lookups' e]. simpl in *.
  exists lookups'. auto.
Qed.

Lemma compact_keeps_the_lookup_list_witness :
  exists lookups',
    (fst (compact two_rows_needed dedup example_builder
            (font_of [single_pos_lookup; pair_lookup [spec_example_subtable]])
            "bogus" [])).(GPOS)
      = Some lookups'
    /\ Forall2 rewritten_from
         [single_pos_lookup; pair_lookup [spec_example_subtable]] lookups'
    /\ (fst (compact two_rows_needed dedup example_builder
               (font_of [single_pos_lookup;
                         pair_lookup [spec_example_subtable]])
               "bogus" [])).(getReverseGlyphMap)
       = (font_of [single_pos_lookup; pair_lookup [spec_example_subtable]])
           .(getReverseGlyphMap).
Proof.
  apply compact_keeps_the_lookup_list. reflexivity.
Defined.

Lemma lookups_fixed fit_predict list_of_set build (ttf : TTFont)
    (config : Config) (lookups : list Lookup) :
  Forall (fun lookup =>
            (lookup.(LookupType) <> 2 /\ lookup.(LookupType) <> 9)
            \/ exists subtables,
                 lookup = pair_lookup subtables
                 /\ Forall (fun p => p.(Format) = 1) subtables)
         lookups ->
  compact_lookups fit_predict list_of_set build ttf config lookups
  = (lookups, None).
Proof.
  induction 1 as [|lookup lookups Hlookup _ IH]; simpl; [reflexivity|].
  assert (Hd : compact_dispatch fit_predict list_of_set build ttf config lookup
               = Ok lookup).
  { destruct Hlookup as [[H2 H9]|(subtables & -> & Hfmt)].
    - unfold compact_dispatch. apply Z.eqb_neq in H2, H9.
      now rewrite H2, H9.
    - unfold compact_dispatch. simpl.
      now apply glyph_pair_lookup_unchanged. }
  now rewrite Hd, IH.
Qed.

(** X19. On a font where every lookup is of a type other than 2 and 9, or
    is a pair-adjustment lookup that holds only format-1 subtables (its
    count being the length of its list), [compact] changes nothing and
    raises nothing, whatever the mode string and the clustering
    arguments. *)
Theorem compact_leaves_glyph_pair_fonts fit_predict list_of_set build
    (ttf : TTFont) (m : string) (kwargs : Kwargs) (lookups : list Lookup) :
  ttf.(GPOS) = Some lookups ->
  Forall (fun lookup =>
            (lookup.(LookupType) <> 2 /\ lookup.(LookupType) <> 9)
            \/ exists subtables,
                 lookup = pair_lookup subtables
                 /\ Forall (fun p => p.(Format) = 1) subtables)
         lookups ->
  compact fit_predict list_of_set build ttf m kwargs = (ttf, None).
Proof.
  intros Hgpos Hall. unfold compact. rewrite Hgpos.
  rewrite lookups_fixed by assumption.
  destruct ttf as [gpos glyph_map]. simpl in *. now subst gpos.
Qed.

Lemma compact_leaves_glyph_pair_fonts_witness :
  compact two_rows_needed dedup example_builder
    (font_of [single_pos_lookup;
              pair_lookup [glyph_pair_subtable; glyph_pair_subtable]])
    "bogus" [("lines_per_cluster", PyInt 0)]
  = (font_of [single_pos_lookup;
              pair_lookup [glyph_pair_subtable; glyph_pair_subtable]],
     None).
Proof.
  apply (compact_leaves_glyph_pair_fonts two_rows_needed dedup example_builder
           _ "bogus" _
           [single_pos_lookup;
            pair_lookup [glyph_pair_subtable; glyph_pair_subtable]]).
  - reflexivity.
  - constructor.
    + left. split; discriminate.
    + constructor; [|constructor]. right.
      exists [glyph_pair_subtable; glyph_pair_subtable].
      split; [reflexivity|]. repeat constructor.
Defined.

(** X20. An extension lookup without subtables stops [compact]: reading
    its first subtable raises [IndexError], whatever the mode; that lookup
    and those after it are left as they were. *)
Theorem empty_extension_lookup_raises fit_predict list_of_set build
    (ttf : TTFont) (m : string) (kwargs : Kwargs)
    (before before' : list Lookup) (lookup : Lookup) (after : list Lookup) :
  ttf.(GPOS) = Some (before ++ lookup :: after) ->
  lookup.(LookupType) = 9 ->
  lookup.(SubTable) = [] ->
  compact_lookups fit_predict list_of_set build ttf (mode_config m kwargs)
    before = (before', None) ->
  compact fit_predict list_of_set build ttf m kwargs
  = ({| GPOS := Some (before' ++ lookup :: after);
        getReverseGlyphMap := ttf.(getReverseGlyphMap) |},
     Some IndexError).
Proof.
  intros Hgpos Htype Hempty Hbefore. unfold compact. rewrite Hgpos.
  fold (mode_config m kwargs).
  rewrite compact_lookups_app, Hbefore. simpl.
  unfold compact_dispatch. rewrite Htype, Hempty. reflexivity.
Qed.

Lemma empty_extension_lookup_raises_witness :
  compact single_cluster dedup example_builder
    (font_of [pair_lookup [glyph_pair_subtable; format3_subtable];
              extension_lookup []; pair_lookup [spec_example_subtable]])
    "one" []
  = (font_of [pair_lookup [glyph_pair_subtable];
              extension_lookup []; pair_lookup [spec_example_subtable]],
     Some IndexError).
Proof.
  exact (empty_extension_lookup_raises single_cluster dedup example_builder
           (font_of [pair_lookup [glyph_pair_subtable; format3_subtable];
                     extension_lookup [];
                     pair_lookup [spec_example_subtable]])
           "one" []
           [pair_lookup [glyph_pair_subtable; format3_subtable]]
           [pair_lookup [glyph_pair_subtable]]
           (extension_lookup []) [pair_lookup [spec_example_subtable]]
           eq_refl eq_refl eq_refl eq_refl).
Defined.

(** ** What the clustering is given, and what the builder is given *)

Lemma enumeration_length (list_of_set : list GlyphTuple -> list GlyphTuple)
    (l : list GlyphTuple) :
  enumerates_set list_of_set ->
  List.length (list_of_set l) = List.length (nodup eq_dec l).
Proof.
  intros Hset. destruct (Hset l) as [Hnd Hin].
  apply Permutation_length. apply NoDup_Permutation; trivial.
  - apply NoDup_nodup.
  - intros x. now rewrite Hin, nodup_In.
Qed.

(** X21. The occupancy vectors: one vector for each distinct class1 key of
    the matrix, each with one entry for each distinct class2 key; every
    entry is 0 or 1, and every vector holds a 1 (a row is never empty). *)
Theorem occupancy_vectors_shape list_of_set (pairs : Pairs) :
  enumerates_set list_of_set ->
  List.length (occupancy_vectors list_of_set pairs)
    = List.length (distinct_class1 pairs)
  /\ forall vector,
       In vector (occupancy_vectors list_of_set pairs) ->
       List.length vector
         = List.length (nodup eq_dec (map (fun item => snd (fst item)) pairs))
       /\ (forall x, In x vector -> x = 0 \/ x = 1)
       /\ In 1 vector.
Proof.
  intros Hset. unfold occupancy_vectors, distinct_class1, Dict.keys.
  rewrite !map_map. rewrite length_map. split.
  - now apply enumeration_length.
  - intros vector Hv. apply in_map_iff in Hv.
    destruct Hv as (class1 & <- & Hclass1).
    rewrite length_map. split; [now apply enumeration_length|split].
    + intros x Hx. apply in_map_iff in Hx. destruct Hx as (class2 & <- & _).
      destruct (Dict.mem pairs (class1, class2)); auto.
    + apply (proj1 (proj2 (Hset _) _)) in Hclass1.
      apply in_map_iff in Hclass1. destruct Hclass1 as ([[c1 c2] v] & Hc & Hin).
      simpl in Hc. subst c1.
      apply in_map_iff. exists c2. split.
      * unfold Dict.mem.
        destruct (Dict.get pairs (class1, c2)) eqn:Hg; [reflexivity|].
        apply get_None_notin in Hg. exfalso. apply Hg.
        change (class1, c2) with (fst (class1, c2, v)). now apply in_map.
      * apply (proj2 (proj2 (Hset _) _)).
        change c2 with ((fun item : PairKey * ValuePair => snd (fst item))
                          (class1, c2, v)).
        now apply in_map.
Qed.

Lemma occupancy_vectors_shape_witness :
  List.length
    (occupancy_vectors dedup (extract_pairs spec_example_subtable).(all_pairs))
    = List.length
        (distinct_class1 (extract_pairs spec_example_subtable).(all_pairs))
  /\ forall vector,
       In vector
          (occupancy_vectors dedup
             (extract_pairs spec_example_subtable).(all_pairs)) ->
       List.length vector
         = List.length
             (nodup eq_dec
                (map (fun item => snd (fst item))
                     (extract_pairs spec_example_subtable).(all_pairs)))
       /\ (forall x, In x vector -> x = 0 \/ x = 1)
       /\ In 1 vector.
Proof.
  apply occupancy_vectors_shape. exact dedup_enumerates.
Defined.

(** X22. The builder has no part in the regrouping: whatever the mode,
    [compact_class_pairs] first settles the groups (an unknown mode or a
    failing clustering raises before the builder is called), then calls the
    builder on each group in order, once, with the glyph map of the font;
    the first exception of the builder ends the call. *)
Theorem builder_called_on_each_group fit_predict list_of_set
    (B : Type) (build : Pairs -> GlyphMap -> result B)
    (ttf : TTFont) (config : Config) (lookup : Lookup) (subtable : PairPos) :
  compact_class_pairs fit_predict list_of_set build ttf config lookup subtable
  = (groups <- subtable_groups fit_predict list_of_set ttf config lookup
                 subtable ;;
     mapM (fun pairs => build pairs ttf.(getReverseGlyphMap)) groups).
Proof. apply compact_class_pairs_via_groups. Qed.
